(** * at-feeds: the IndieWeb feed indexer

    A shallow embedding of the streaming core of the feed generator:
    - [src/util/csv-mappings.ts]  the handle-to-domain registry ([IndiewebMappings]),
    - [src/util/indieweb.ts]      link extraction and domain derivation,
    - [src/subscription.ts]       [FirehoseSubscription]: handle resolution,
                                  classification and index maintenance.

    The sources hold [subscription.ts] in two variants, with and without
    the keyword branch that feeds the [post] table; the variant with both
    branches is the one embedded, the other is its second half alone.

    Strings are modelled by [string] (sequences of 8-bit characters), so the
    development covers the ASCII range: [toLowerCase] folds [A-Z] only and
    [trim] removes the ASCII white space and line terminators that
    ECMAScript's [trim] removes.  Handles, host names and the rows of the
    mapping file are ASCII in practice.  Console output is not modelled. *)

From Stdlib Require Import String Ascii List Bool Arith Lia.
From stdpp Require Import base option gmap strings list.
Import ListNotations.

Local Open Scope string_scope.
Local Open Scope list_scope.

(* ===================================================================== *)
(** ** ECMAScript string operations used by the sources                  *)
(* ===================================================================== *)

Module Js.

Definition isEmpty (s : string) : bool :=
  match s with EmptyString => true | String _ _ => false end.

(** [A]..[Z] *)
Definition isUpper (c : ascii) : bool :=
  let n := nat_of_ascii c in ((65 <=? n) && (n <=? 90))%nat.

Definition lowerChar (c : ascii) : ascii :=
  if isUpper c then ascii_of_nat (nat_of_ascii c + 32) else c.

(** [String.prototype.toLowerCase] *)
Fixpoint toLowerCase (s : string) : string :=
  match s with
  | EmptyString => EmptyString
  | String c s' => String (lowerChar c) (toLowerCase s')
  end.

(** TAB, LF, VT, FF, CR and SPACE *)
Definition isWhiteSpace (c : ascii) : bool :=
  let n := nat_of_ascii c in (((9 <=? n) && (n <=? 13)) || (n =? 32))%nat.

Fixpoint trimStart (s : string) : string :=
  match s with
  | EmptyString => EmptyString
  | String c s' => if isWhiteSpace c then trimStart s' else s
  end.

Fixpoint trimEnd (s : string) : string :=
  match s with
  | EmptyString => EmptyString
  | String c s' =>
      let t := trimEnd s' in
      if isWhiteSpace c && isEmpty t then EmptyString else String c t
  end.

(** [String.prototype.trim] *)
Definition trim (s : string) : string := trimEnd (trimStart s).

(** [s.startsWith(p)] *)
Fixpoint startsWith (s p : string) {struct p} : bool :=
  match p with
  | EmptyString => true
  | String a p' =>
      match s with
      | EmptyString => false
      | String b s' => Ascii.eqb a b && startsWith s' p'
      end
  end.

Fixpoint dropChars (n : nat) (s : string) : string :=
  match n with
  | O => s
  | S n' => match s with EmptyString => EmptyString | String _ s' => dropChars n' s' end
  end.

(** [s.endsWith(p)] *)
Definition endsWith (s p : string) : bool :=
  (String.length p <=? String.length s)%nat
  && String.eqb (dropChars (String.length s - String.length p) s) p.

(** [s.includes(p)] *)
Fixpoint includes (s p : string) : bool :=
  startsWith s p
  || match s with
     | EmptyString => false
     | String _ s' => includes s' p
     end.

(** [s.replace(p, r)] for a string pattern [p]: only the first
    occurrence of [p], wherever it lies in [s], is replaced. *)
Fixpoint replace (s p r : string) : string :=
  if startsWith s p then r +:+ dropChars (String.length p) s
  else match s with
       | EmptyString => EmptyString
       | String c s' => String c (replace s' p r)
       end.

(** [s.split(sep)] for a one-character separator: never the empty list. *)
Fixpoint split (s : string) (sep : ascii) : list string :=
  match s with
  | EmptyString => [EmptyString]
  | String c s' =>
      if Ascii.eqb c sep then EmptyString :: split s' sep
      else match split s' sep with
           | [] => [String c EmptyString]
           | w :: ws => String c w :: ws
           end
  end.

Definition LF : ascii := ascii_of_nat 10.
Definition comma : ascii := ascii_of_nat 44.

End Js.

(* ===================================================================== *)
(** ** The mapping registry: [class IndiewebMappings]                    *)
(* ===================================================================== *)

(** [Map<string, string[]>]: only [get], [set], [has] and [clear] are used
    on it by the code below, so the insertion order of a JavaScript [Map]
    plays no part. *)
Abbreviation Mappings := (gmap string (list string)).

(** What [load] finds at [csvPath]: [fs.existsSync] answers false, or
    [fs.readFileSync] throws, or it returns the decoded content. *)
Inductive CsvFile : Type :=
  | FileMissing
  | ReadThrows
  | FileContent (content : string).

Module IndiewebMappings.

(** The header test of the loop body: the first kept line is dropped when
    it mentions [handle]. *)
Definition isHeader (lineNumber : nat) (line : string) : bool :=
  (lineNumber =? 1)%nat && Js.includes (Js.toLowerCase line) "handle".

(** One iteration of [for (const line of lines)], after [lineNumber++]. *)
Definition addLine (lineNumber : nat) (line : string) (newMappings : Mappings)
  : Mappings :=
  if isHeader lineNumber line then newMappings
  else if Js.isEmpty (Js.trim line) || Js.startsWith (Js.trim line) "#"
  then newMappings
  else
    let parts := List.map Js.trim (Js.split line Js.comma) in
    if (length parts <? 2)%nat then newMappings
    else
      let handle := Js.toLowerCase (nth 0 parts "") in
      let domain := Js.toLowerCase (nth 1 parts "") in
      if Js.isEmpty handle || Js.isEmpty domain then newMappings
      else
        let existing := default [] (newMappings !! handle) in
        <[handle := existing ++ [domain]]> newMappings.

Fixpoint addLines (lineNumber : nat) (lines : list string) (newMappings : Mappings)
  : Mappings :=
  match lines with
  | [] => newMappings
  | line :: rest =>
      let lineNumber := S lineNumber in
      addLines lineNumber rest (addLine lineNumber line newMappings)
  end.

(** [content.split('\n').filter((line) => line.trim())] and the loop. *)
Definition parse (content : string) : Mappings :=
  let lines :=
    List.filter (fun line => negb (Js.isEmpty (Js.trim line)))
                (Js.split content Js.LF) in
  addLines 0 lines ∅.

(** [load()]: the state of [this.mappings] after the call. *)
Definition load (file : CsvFile) (mappings : Mappings) : Mappings :=
  match file with
  | FileMissing => ∅                   (* this.mappings.clear() *)
  | ReadThrows => mappings             (* catch: keep existing mappings *)
  | FileContent content => parse content
  end.

Definition getDomainsForHandle (mappings : Mappings) (handle : string)
  : list string :=
  default [] (mappings !! Js.toLowerCase handle).

Definition hasMapping (mappings : Mappings) (handle : string) : bool :=
  bool_decide (is_Some (mappings !! Js.toLowerCase handle)).

(** The table after a sequence of [load] calls (the first one from
    [start], the others from the reload timer), beginning with the empty
    table of the constructor. *)
Definition loadAll (files : list CsvFile) : Mappings :=
  fold_left (fun mappings file => load file mappings) files ∅.

End IndiewebMappings.

(** The registry object with its reload timer, and the platform's interval
    timers: [setInterval] hands out a new timer each time it is called. *)
Module Reload.

Record Registry : Type := {
  table : Mappings;
  reloadTimer : option nat
}.

Record Timers : Type := {
  running : list nat;
  nextTimer : nat
}.

Definition setInterval (timers : Timers) : nat * Timers :=
  (nextTimer timers,
   {| running := nextTimer timers :: running timers;
      nextTimer := S (nextTimer timers) |}).

Definition clearInterval (timer : nat) (timers : Timers) : Timers :=
  {| running := List.filter (fun t => negb (Nat.eqb t timer)) (running timers);
     nextTimer := nextTimer timers |}.

(** [start()]: [await this.load()], then [setInterval]. *)
Definition start (file : CsvFile) (registry : Registry) (timers : Timers)
  : Registry * Timers :=
  let loaded := IndiewebMappings.load file (table registry) in
  let (timer, timers') := setInterval timers in
  ({| table := loaded; reloadTimer := Some timer |}, timers').

(** [stop()] *)
Definition stop (registry : Registry) (timers : Timers) : Registry * Timers :=
  match reloadTimer registry with
  | Some timer =>
      ({| table := table registry; reloadTimer := None |},
       clearInterval timer timers)
  | None => (registry, timers)
  end.

(** One firing of the timer: [this.load()]. *)
Definition fire (file : CsvFile) (registry : Registry) : Registry :=
  {| table := IndiewebMappings.load file (table registry);
     reloadTimer := reloadTimer registry |}.

End Reload.

(* ===================================================================== *)
(** ** Link extraction: [src/util/indieweb.ts]                           *)
(* ===================================================================== *)

(** A rich-text facet feature; [isLink] holds of [Link] only. *)
Inductive Feature : Type :=
  | Link (uri : string)
  | Mention (did : string)
  | Tag (tag : string)
  | UnknownFeature.

Record Facet : Type := { features : list Feature }.

(** A post embed; [AppBskyEmbedExternal.isMain] holds of [External] only. *)
Inductive Embed : Type :=
  | External (uri : string)
  | OtherEmbed.

Record PostRecord : Type := {
  text : string;
  facets : option (list Facet);
  embed : option Embed
}.

Definition linksOfFacet (facet : Facet) : list string :=
  flat_map (fun feature =>
              match feature with
              | Link uri => [uri]
              | _ => []
              end) (features facet).

Definition extractAllLinks (post : PostRecord) : list string :=
  let fromFacets :=
    match facets post with
    | Some fs => flat_map linksOfFacet fs
    | None => []
    end in
  let fromEmbed :=
    match embed post with
    | Some (External uri) => [uri]
    | _ => []
    end in
  fromFacets ++ fromEmbed.

(* ===================================================================== *)
(** ** The index tables: [DatabaseSchema]                                *)
(* ===================================================================== *)

Record Post : Type := {
  post_uri : string;
  post_cid : string;
  post_indexedAt : string
}.

Record IndiewebPost : Type := {
  uri : string;
  cid : string;
  author : string;
  indexedAt : string
}.

Module Db.
Section Table.
Context {Row : Type} (key : Row -> string).

Definition hasKey (k : string) (table : list Row) : bool :=
  existsb (fun row => String.eqb (key row) k) table.

(** Modelled from the spec: the storage engine and the migrations that
    declare the tables are not among the sources; a table holds rows
    keyed by [uri], [deleteFrom(..).where('uri', 'in', uris)] removes
    the rows whose key is listed. *)
Definition deleteWhereUriIn (uris : list string) (table : list Row) : list Row :=
  List.filter (fun row => negb (existsb (String.eqb (key row)) uris)) table.

(** Modelled from the spec: the storage engine and the migrations that
    declare the tables are not among the sources; inserting a row whose
    [uri] is present is ignored ([onConflict] [doNothing]), row by row
    in the order of [values]. *)
Definition insertOrIgnore (values : list Row) (table : list Row) : list Row :=
  fold_left (fun t row => if hasKey (key row) t then t else t ++ [row])
            values table.

End Table.
End Db.

(* ===================================================================== *)
(** ** The firehose subscription: [src/subscription.ts]                  *)
(* ===================================================================== *)

Record CreateOp : Type := {
  create_uri : string;
  create_cid : string;
  create_author : string;
  record : PostRecord
}.

Record DeleteOp : Type := { delete_uri : string }.

Record Operations : Type := {
  creates : list CreateOp;
  deletes : list DeleteOp
}.

(** The result of [getOpsByType]; the subscription reads [posts] only. *)
Record OperationsByType : Type := { posts : Operations }.

(** Modelled from the spec: the lexicon's [RepoEvent] union and its
    [isCommit] guard are not among the sources; an event is tagged with its
    kind and only a commit carries operations. *)
Inductive RepoEvent (Commit : Type) : Type :=
  | CommitEvent (commit : Commit)
  | OtherEvent (type : string).
Arguments CommitEvent {Commit} commit.
Arguments OtherEvent {Commit} type.

Definition isCommit {Commit : Type} (evt : RepoEvent Commit) : bool :=
  match evt with
  | CommitEvent _ => true
  | OtherEvent _ => false
  end.

(** The identity resolver's document and the outcomes of
    [didResolver.resolve]. *)
Record DidDocument : Type := { alsoKnownAs : option (list string) }.

Inductive ResolveResult : Type :=
  | ResolveThrows
  | ResolveNull
  | ResolveDoc (didDoc : DidDocument).

(** What [handleEvent] reads and writes besides its argument: the two
    tables, the calls made to the identity resolver (latest first) and the
    number of [new Date()] readings taken so far. *)
Record World : Type := {
  post : list Post;
  indieweb_post : list IndiewebPost;
  resolverCalls : list string;
  clockReads : nat
}.

Definition M (A : Type) : Type := World -> A * World.

Definition ret {A : Type} (a : A) : M A := fun w => (a, w).

Definition bind {A B : Type} (m : M A) (k : A -> M B) : M B :=
  fun w => let (a, w') := m w in k a w'.

Notation "x <- m ;; k" := (bind m (fun x => k))
  (at level 100, m at next level, right associativity).
Notation "m ;;; k" := (bind m (fun _ => k))
  (at level 100, right associativity).

Definition setPost (rows : list Post) (w : World) : World :=
  {| post := rows; indieweb_post := indieweb_post w;
     resolverCalls := resolverCalls w; clockReads := clockReads w |}.

Definition setIndiewebPost (rows : list IndiewebPost) (w : World) : World :=
  {| post := post w; indieweb_post := rows;
     resolverCalls := resolverCalls w; clockReads := clockReads w |}.

(** [this.db.deleteFrom(..).where('uri', 'in', uris).execute()] and
    [this.db.insertInto(..).values(rows).onConflict(doNothing).execute()]
    on each table. *)
Definition deleteFromPost (uris : list string) : M unit :=
  fun w => (tt, setPost (Db.deleteWhereUriIn post_uri uris (post w)) w).

Definition insertIntoPost (values : list Post) : M unit :=
  fun w => (tt, setPost (Db.insertOrIgnore post_uri values (post w)) w).

Definition deleteFromIndiewebPost (uris : list string) : M unit :=
  fun w => (tt, setIndiewebPost (Db.deleteWhereUriIn uri uris (indieweb_post w)) w).

Definition insertIntoIndiewebPost (values : list IndiewebPost) : M unit :=
  fun w => (tt, setIndiewebPost (Db.insertOrIgnore uri values (indieweb_post w)) w).

Fixpoint mapM {A B : Type} (f : A -> M B) (l : list A) : M (list B) :=
  match l with
  | [] => ret []
  | a :: l' => b <- f a ;; bs <- mapM f l' ;; ret (b :: bs)
  end.

Section FirehoseSubscription.

Context {Commit : Type}.

(** [getOpsByType] of [src/util/subscription.ts] decodes the commit's
    blocks; it is not among the sources and is taken as given. *)
Variable getOpsByType : Commit -> OperationsByType.

(** [new URL(url).hostname] of the platform: [None] when the constructor
    throws.  The host name may be empty (as for [file:///x]). *)
Variable urlHostname : string -> option string.

(** [new Date().toISOString()], by the number of earlier readings. *)
Variable clock : nat -> string.

(** [this.didResolver.resolve]. *)
Variable didResolver : string -> ResolveResult.

(** The table held by [this.indiewebMappings]. *)
Variable indiewebMappings : Mappings.

Definition getDomainFromUrl (url : string) : option string :=
  match urlHostname url with
  | Some hostname => Some (Js.toLowerCase hostname)
  | None => None                                  (* catch *)
  end.

Definition resolve (did : string) : M ResolveResult :=
  fun w => (didResolver did,
            {| post := post w; indieweb_post := indieweb_post w;
               resolverCalls := did :: resolverCalls w;
               clockReads := clockReads w |}).

Definition newDate : M string :=
  fun w => (clock (clockReads w),
            {| post := post w; indieweb_post := indieweb_post w;
               resolverCalls := resolverCalls w;
               clockReads := S (clockReads w) |}).

(** The body of [getHandleFromDid] after the [await]; a rejected
    [resolve] takes the [catch] branch. *)
Definition handleOfResult (result : ResolveResult) : option string :=
  match result with
  | ResolveThrows => None
  | ResolveNull => None
  | ResolveDoc didDoc =>
      match alsoKnownAs didDoc with
      | None => None
      | Some [] => None
      | Some (first :: _) =>
          if Js.isEmpty first then None
          else Some (Js.replace first "at://" "")
      end
  end.

Definition getHandleFromDid (did : string) : M (option string) :=
  result <- resolve did ;; ret (handleOfResult result).

(** Check 1 and Check 2 of the link loop, on a non-empty [domain]. *)
Definition directMatch (handle domain : string) : bool :=
  negb (Js.endsWith handle ".bsky.social")
  && String.eqb (Js.toLowerCase domain) (Js.toLowerCase handle).

Definition csvMatch (csvMappedDomains : list string) (domain : string) : bool :=
  existsb (fun mappedDomain => String.eqb mappedDomain (Js.toLowerCase domain))
          csvMappedDomains.

(** [for (const link of links)]: the value of [hasMatch] when the loop
    ends, and the links handed to [getDomainFromUrl] on the way. *)
Fixpoint matchLinks (handle : string) (csvMappedDomains links : list string)
  : bool * list string :=
  match links with
  | [] => (false, [])
  | link :: rest =>
      let continue :=
        let (hasMatch, parsed) := matchLinks handle csvMappedDomains rest in
        (hasMatch, link :: parsed) in
      match getDomainFromUrl link with
      | None => continue
      | Some domain =>
          if Js.isEmpty domain then continue
          else if directMatch handle domain then (true, [link])
          else if csvMatch csvMappedDomains domain then (true, [link])
          else continue
      end
  end.

Definition hasMatch (handle : string) (csvMappedDomains links : list string) : bool :=
  fst (matchLinks handle csvMappedDomains links).

(** The body of [for (const create of ops.posts.creates)]: the row
    pushed onto [indiewebPostsToCreate], if any. *)
Definition classifyCreate (create : CreateOp) : M (option IndiewebPost) :=
  let links := extractAllLinks (record create) in
  if (length links =? 0)%nat then ret None
  else
    handle <- getHandleFromDid (create_author create) ;;
    match handle with
    | None => ret None
    | Some handle =>
        if Js.isEmpty handle then ret None
        else
          let csvMappedDomains :=
            IndiewebMappings.getDomainsForHandle indiewebMappings handle in
          if hasMatch handle csvMappedDomains links then
            now <- newDate ;;
            ret (Some {| uri := create_uri create;
                         cid := create_cid create;
                         author := create_author create;
                         indexedAt := now |})
          else ret None
    end.

Fixpoint classifyCreates (creates : list CreateOp)
         (indiewebPostsToCreate : list IndiewebPost) : M (list IndiewebPost) :=
  match creates with
  | [] => ret indiewebPostsToCreate
  | create :: rest =>
      staged <- classifyCreate create ;;
      classifyCreates rest
        match staged with
        | Some row => indiewebPostsToCreate ++ [row]
        | None => indiewebPostsToCreate
        end
  end.

(** The keyword branch: [filter] then [map]. *)
Definition isAlfRelated (create : CreateOp) : bool :=
  Js.includes (Js.toLowerCase (text (record create))) "alf".

Definition toPostRow (create : CreateOp) : M Post :=
  now <- newDate ;;
  ret {| post_uri := create_uri create;
         post_cid := create_cid create;
         post_indexedAt := now |}.

Definition handleEvent (evt : RepoEvent Commit) : M unit :=
  match evt with
  | OtherEvent _ => ret tt                       (* if (!isCommit(evt)) return *)
  | CommitEvent commit =>
      let ops := getOpsByType commit in
      let postsToDelete := List.map delete_uri (deletes (posts ops)) in
      postsToCreate <-
        mapM toPostRow (List.filter isAlfRelated (creates (posts ops))) ;;
      (if (0 <? length postsToDelete)%nat
       then deleteFromPost postsToDelete else ret tt) ;;;
      (if (0 <? length postsToCreate)%nat
       then insertIntoPost postsToCreate else ret tt) ;;;
      let indiewebPostsToDelete := List.map delete_uri (deletes (posts ops)) in
      indiewebPostsToCreate <- classifyCreates (creates (posts ops)) [] ;;
      (if (0 <? length indiewebPostsToDelete)%nat
       then deleteFromIndiewebPost indiewebPostsToDelete else ret tt) ;;;
      (if (0 <? length indiewebPostsToCreate)%nat
       then insertIntoIndiewebPost indiewebPostsToCreate else ret tt)
  end.

End FirehoseSubscription.

(* ===================================================================== *)
(** ** Descriptions used in the statements                               *)
(* ===================================================================== *)

(** What every table built by [load] satisfies: keys are lowercase, and
    the domains stored under a key are non-empty and lowercase. *)
Definition domainOk (d : string) : Prop := d <> "" /\ Js.toLowerCase d = d.

Definition wfMappings (m : Mappings) : Prop :=
  forall k ds, m !! k = Some ds -> Js.toLowerCase k = k /\ Forall domainOk ds.

(** The last [load] of a run whose read did not throw. *)
Definition readCompletes (file : CsvFile) : bool :=
  match file with
  | ReadThrows => false
  | _ => true
  end.

Definition lastCompleted (files : list CsvFile) : option CsvFile :=
  last (List.filter readCompletes files).

(** The lines that [load] keeps before its loop. *)
Definition keptLines (content : string) : list string :=
  List.filter (fun line => negb (Js.isEmpty (Js.trim line)))
              (Js.split content Js.LF).

(** The pair of handle and domain that a line contributes, if it is not
    passed over (header, comment, fewer than two fields, empty field). *)
Definition rowOfLine (lineNumber : nat) (line : string) : option (string * string) :=
  if IndiewebMappings.isHeader lineNumber line then None
  else if Js.isEmpty (Js.trim line) || Js.startsWith (Js.trim line) "#" then None
  else
    let parts := List.map Js.trim (Js.split line Js.comma) in
    if (length parts <? 2)%nat then None
    else
      let handle := Js.toLowerCase (nth 0 parts "") in
      let domain := Js.toLowerCase (nth 1 parts "") in
      if Js.isEmpty handle || Js.isEmpty domain then None
      else Some (handle, domain).

Fixpoint rowsOfLines (lineNumber : nat) (lines : list string)
  : list (string * string) :=
  match lines with
  | [] => []
  | line :: rest =>
      match rowOfLine (S lineNumber) line with
      | Some row => row :: rowsOfLines (S lineNumber) rest
      | None => rowsOfLines (S lineNumber) rest
      end
  end.

(** The domains that [rows] give for the key [handle], in their order. *)
Definition domainsOf (handle : string) (rows : list (string * string)) : list string :=
  List.map snd (List.filter (fun row => String.eqb (fst row) handle) rows).

Definition listsNonEmpty (m : Mappings) : Prop :=
  forall k ds, m !! k = Some ds -> ds <> [].

(** [c] is one of the characters of [s]. *)
Fixpoint occursIn (c : ascii) (s : string) : bool :=
  match s with
  | EmptyString => false
  | String a s' => Ascii.eqb a c || occursIn c s'
  end.

(** Every timer running was handed out by [setInterval] earlier. *)
Definition timersFresh (timers : Reload.Timers) : Prop :=
  forall t, In t (Reload.running timers) -> t < Reload.nextTimer timers.

(** The handle under which the loop body stages [create], when it does:
    the post has a link, its author resolves to a non-empty handle, and
    the link loop ends with [hasMatch] set. *)
Definition stagingHandle (urlHostname : string -> option string)
    (didResolver : string -> ResolveResult) (indiewebMappings : Mappings)
    (create : CreateOp) : option string :=
  match extractAllLinks (record create) with
  | [] => None
  | links =>
      match handleOfResult (didResolver (create_author create)) with
      | None => None
      | Some handle =>
          if Js.isEmpty handle then None
          else if hasMatch urlHostname handle
                    (IndiewebMappings.getDomainsForHandle indiewebMappings handle)
                    links
          then Some handle else None
      end
  end.

(** The create has at least one link, so the loop body reaches the
    resolver. *)
Definition hasLinks (create : CreateOp) : bool :=
  match extractAllLinks (record create) with
  | [] => false
  | _ :: _ => true
  end.

(** The loop body stages a row for the create. *)
Definition isStaged (urlHostname : string -> option string)
    (didResolver : string -> ResolveResult) (indiewebMappings : Mappings)
    (create : CreateOp) : bool :=
  match stagingHandle urlHostname didResolver indiewebMappings create with
  | Some _ => true
  | None => false
  end.

(** The rows built from a create at the clock reading number [first + i]. *)
Definition postRowAt (clock : nat -> string) (first i : nat) (create : CreateOp)
  : Post :=
  {| post_uri := create_uri create;
     post_cid := create_cid create;
     post_indexedAt := clock (first + i) |}.

Definition indiewebRowAt (clock : nat -> string) (first i : nat) (create : CreateOp)
  : IndiewebPost :=
  {| uri := create_uri create;
     cid := create_cid create;
     author := create_author create;
     indexedAt := clock (first + i) |}.

(** The test that one pass of the link loop applies to [link]. *)
Definition linkMatches (urlHostname : string -> option string)
    (handle : string) (csvMappedDomains : list string) (link : string) : bool :=
  match getDomainFromUrl urlHostname link with
  | None => false
  | Some domain =>
      negb (Js.isEmpty domain)
      && (directMatch handle domain || csvMatch csvMappedDomains domain)
  end.

(** The admission rule in the words of the specification: the link's
    derived domain (a) equals the handle up to letter case while the handle
    does not end with the shared-hosting suffix, or (b) is in the
    registry's domain set for the handle. *)
Definition specAcceptsLink (urlHostname : string -> option string)
    (handle : string) (domainSet : list string) (link : string) : Prop :=
  exists domain,
    getDomainFromUrl urlHostname link = Some domain
    /\ ((Js.toLowerCase domain = Js.toLowerCase handle
         /\ Js.endsWith handle ".bsky.social" = false)
        \/ In domain domainSet).

(** The admission rule in the words of the specification, on what the
    URL parser gives: the link parses, its derived domain is the host name
    in lowercase, and that domain (a) equals the handle up to letter case
    while the handle does not end with the shared-hosting suffix, or (b)
    is in the registry's domain set for the handle. *)
Definition specAcceptsHost (urlHostname : string -> option string)
    (handle : string) (domainSet : list string) (link : string) : Prop :=
  exists hostname,
    urlHostname link = Some hostname
    /\ let domain := Js.toLowerCase hostname in
       (Js.toLowerCase domain = Js.toLowerCase handle
        /\ Js.endsWith handle ".bsky.social" = false)
       \/ In domain domainSet.

(** The registry's domain set for a handle after a run of loads, read off
    the mapping files: the domains that the rows of the last file read
    give for the handle in lowercase; empty when that load found no file
    and when no load has read a file. *)
Definition registryDomains (files : list CsvFile) (handle : string) : list string :=
  match lastCompleted files with
  | Some (FileContent content) =>
      domainsOf (Js.toLowerCase handle) (rowsOfLines 0 (keptLines content))
  | _ => []
  end.

(* ===================================================================== *)
(** ** Concrete collaborators for the worked examples                    *)
(* ===================================================================== *)

Module Example.

Definition nl : string := String Js.LF EmptyString.

(** A fragment of the platform's URL parser: absolute [http] and [https]
    URLs without credentials or port; anything else is refused here. *)
Definition urlHostname (url : string) : option string :=
  let authority (rest : string) :=
    nth 0 (Js.split rest (ascii_of_nat 47)) "" in
  if Js.startsWith url "https://" then Some (authority (Js.dropChars 8 url))
  else if Js.startsWith url "http://" then Some (authority (Js.dropChars 7 url))
  else None.

Definition clock (n : nat) : string :=
  "2024-01-01T00:00:0" +:+ String (ascii_of_nat (48 + n mod 10)) ".000Z".

(** A commit whose operations are already decoded. *)
Definition getOpsByType (commit : OperationsByType) : OperationsByType := commit.

Definition emptyWorld : World :=
  {| post := []; indieweb_post := []; resolverCalls := []; clockReads := 0 |}.

Definition linkPost (body url : string) : PostRecord :=
  {| text := body;
     facets := Some [ {| features := [Link url] |} ];
     embed := None |}.

Definition plainPost (body : string) : PostRecord :=
  {| text := body; facets := None; embed := None |}.

(** Every author resolves to a document naming [alias] first. *)
Definition resolverTo (alias : string) (did : string) : ResolveResult :=
  ResolveDoc {| alsoKnownAs := Some [alias] |}.

Definition dominikUri : string := "at://did:plc:dominik/app.bsky.feed.post/3kabc".

(** A post by [did:plc:dominik] that links to the author's own domain
    (and mentions [alf], so the keyword branch takes it too). *)
Definition dominikCreate : CreateOp :=
  {| create_uri := dominikUri;
     create_cid := "bafyreia";
     create_author := "did:plc:dominik";
     record := linkPost "Ralf wrote a new post" "https://dominik.social/post" |}.

Definition dominikResolver : string -> ResolveResult :=
  resolverTo "at://dominik.social".

Definition dominikRow : IndiewebPost :=
  {| uri := dominikUri; cid := "bafyreia"; author := "did:plc:dominik";
     indexedAt := clock 0 |}.

(** One commit that creates the post and deletes the same uri. *)
Definition createAndDelete : OperationsByType :=
  {| posts := {| creates := [dominikCreate];
                 deletes := [ {| delete_uri := dominikUri |} ] |} |}.

Definition createOnly : OperationsByType :=
  {| posts := {| creates := [dominikCreate]; deletes := [] |} |}.

(** A post without any link. *)
Definition plainCreate : CreateOp :=
  {| create_uri := "at://did:plc:dominik/app.bsky.feed.post/3kabd";
     create_cid := "bafyreib";
     create_author := "did:plc:dominik";
     record := plainPost "good morning" |}.

(** A post by an account whose handle is spelled [alice.Bsky.Social]. *)
Definition aliceCreate : CreateOp :=
  {| create_uri := "at://did:plc:alice/app.bsky.feed.post/3kabe";
     create_cid := "bafyreic";
     create_author := "did:plc:alice";
     record := linkPost "my page" "https://alice.bsky.social/x" |}.

Definition aliceResolver : string -> ResolveResult :=
  resolverTo "at://alice.Bsky.Social".

(** The shared-host spelling of the handle, a post that links to the
    account's blog, and a mapping file that opts the account in. *)
Definition aliceSharedResolver : string -> ResolveResult :=
  resolverTo "at://alice.bsky.social".

Definition aliceBlogCreate : CreateOp :=
  {| create_uri := "at://did:plc:alice/app.bsky.feed.post/3kabf";
     create_cid := "bafyreid";
     create_author := "did:plc:alice";
     record := linkPost "new on the blog" "https://Blog.Example.com/p/1" |}.

Definition aliceMapping : string := "Alice.bsky.social, blog.example.COM".

(** A commit that carries no post operation. *)
Definition likesOnly : OperationsByType :=
  {| posts := {| creates := []; deletes := [] |} |}.

(** A world in which the post of [dominikCreate] is indexed already. *)
Definition indexedWorld : World :=
  {| post := []; indieweb_post := [dominikRow];
     resolverCalls := []; clockReads := 7 |}.

Definition twoTimers : Reload.Timers :=
  {| Reload.running := [1; 0]; Reload.nextTimer := 2 |}.

Definition CR : ascii := ascii_of_nat 13.

End Example.

(* ===================================================================== *)
(** ** Strings                                                           *)
(* ===================================================================== *)

Lemma lowerChar_idem (c : ascii) : Js.lowerChar (Js.lowerChar c) = Js.lowerChar c.
Proof. destruct c as [[] [] [] [] [] [] [] []]; reflexivity. Qed.

Lemma toLowerCase_idem (s : string) :
  Js.toLowerCase (Js.toLowerCase s) = Js.toLowerCase s.
Proof.
  induction s as [|c s IH]; simpl; [reflexivity|].
  by rewrite lowerChar_idem, IH.
Qed.

Lemma isEmpty_toLowerCase (s : string) :
  Js.isEmpty (Js.toLowerCase s) = Js.isEmpty s.
Proof. by destruct s. Qed.

Lemma isEmpty_true (s : string) : Js.isEmpty s = true <-> s = "".
Proof. destruct s; simpl; split; congruence. Qed.

Lemma isEmpty_false (s : string) : Js.isEmpty s = false <-> s <> "".
Proof. destruct s; simpl; split; congruence. Qed.

(* ===================================================================== *)
(** ** The registry                                                      *)
(* ===================================================================== *)

Lemma wfMappings_empty : wfMappings ∅.
Proof. intros k ds H. by rewrite lookup_empty in H. Qed.

Lemma addLine_wf n line (m : Mappings) :
  wfMappings m -> wfMappings (IndiewebMappings.addLine n line m).
Proof.
  intros Hm. unfold IndiewebMappings.addLine.
  destruct (IndiewebMappings.isHeader n line); [done|].
  destruct (_ || _); [done|].
  destruct (_ <? _)%nat; [done|].
  set (handle := Js.toLowerCase _). set (domain := Js.toLowerCase (nth 1 _ _)).
  destruct (Js.isEmpty handle || Js.isEmpty domain) eqn:Hempty; [done|].
  apply orb_false_iff in Hempty as [_ Hd]. apply isEmpty_false in Hd.
  intros k ds. rewrite lookup_insert. case_decide as Hk.
  - intros [= <-]. subst k. split; [apply toLowerCase_idem|].
    apply Forall_app. split.
    + destruct (m !! handle) as [old|] eqn:Hold; simpl; [|constructor].
      by apply (Hm _ _ Hold).
    + repeat constructor; [done|apply toLowerCase_idem].
  - apply Hm.
Qed.

Lemma addLines_wf lines : forall n (m : Mappings),
  wfMappings m -> wfMappings (IndiewebMappings.addLines n lines m).
Proof.
  induction lines as [|line rest IH]; intros n m Hm; simpl; [done|].
  by apply IH, addLine_wf.
Qed.

Lemma parse_wf content : wfMappings (IndiewebMappings.parse content).
Proof. apply addLines_wf, wfMappings_empty. Qed.

Lemma load_wf file (m : Mappings) :
  wfMappings m -> wfMappings (IndiewebMappings.load file m).
Proof.
  destruct file; simpl; [intros _; apply wfMappings_empty|done|intros _; apply parse_wf].
Qed.

Lemma loadAll_wf files : wfMappings (IndiewebMappings.loadAll files).
Proof.
  unfold IndiewebMappings.loadAll. generalize wfMappings_empty.
  generalize (∅ : Mappings).
  induction files as [|file rest IH]; intros m Hm; simpl; [done|].
  by apply IH, load_wf.
Qed.

Lemma getDomainsForHandle_ok files handle :
  Forall domainOk
    (IndiewebMappings.getDomainsForHandle (IndiewebMappings.loadAll files) handle).
Proof.
  unfold IndiewebMappings.getDomainsForHandle.
  destruct (_ !! _) as [ds|] eqn:H; simpl; [|constructor].
  by apply (loadAll_wf files _ _ H).
Qed.

Lemma loadAll_snoc files file :
  IndiewebMappings.loadAll (files ++ [file])
  = IndiewebMappings.load file (IndiewebMappings.loadAll files).
Proof. unfold IndiewebMappings.loadAll. by rewrite fold_left_app. Qed.

Lemma loadAll_lastCompleted files :
  IndiewebMappings.loadAll files
  = match lastCompleted files with
    | Some (FileContent content) => IndiewebMappings.parse content
    | _ => ∅
    end.
Proof.
  induction files as [|file files IH] using rev_ind; [done|].
  rewrite loadAll_snoc. unfold lastCompleted. rewrite List.filter_app.
  destruct file; simpl.
  - by rewrite last_snoc.
  - by rewrite app_nil_r.
  - by rewrite last_snoc.
Qed.

(** C1 (as the code has it).  A [load] whose read throws leaves the table
    exactly as it was; a [load] that finds no file empties the table; a
    [load] that reads the file replaces the table by the parsed content,
    whatever it held before.  So after any run of loads the table is the
    parsed content of the last load that did not throw, and it is empty
    when that load found the file missing or when there was none: never a
    mixture of an old table and new rows. *)
Theorem load_outcomes (mappings : Mappings) :
  IndiewebMappings.load ReadThrows mappings = mappings
  /\ IndiewebMappings.load FileMissing mappings = ∅
  /\ (forall content,
        IndiewebMappings.load (FileContent content) mappings
        = IndiewebMappings.parse content)
  /\ (forall files,
        IndiewebMappings.loadAll (files ++ [ReadThrows])
        = IndiewebMappings.loadAll files
        /\ IndiewebMappings.loadAll (files ++ [FileMissing]) = ∅
        /\ IndiewebMappings.loadAll files
           = match lastCompleted files with
             | Some (FileContent content) => IndiewebMappings.parse content
             | _ => ∅
             end).
Proof.
  repeat split.
  - by rewrite loadAll_snoc.
  - by rewrite loadAll_snoc.
  - apply loadAll_lastCompleted.
Qed.

(** C1 fails as stated: after a good load of the row [a.com,b.com], a
    reload that finds the file missing does not keep the table; the lookup
    of [a.com] answers the empty list. *)
Lemma load_missing_file_clears :
  let good := IndiewebMappings.load (FileContent "a.com,b.com") ∅ in
  IndiewebMappings.getDomainsForHandle good "a.com" = ["b.com"]
  /\ IndiewebMappings.getDomainsForHandle
       (IndiewebMappings.load FileMissing good) "a.com" = []
  /\ IndiewebMappings.load FileMissing good <> good.
Proof.
  split; [by vm_compute|]. split; [by vm_compute|].
  intros H. apply (f_equal (fun m : Mappings => m !! "a.com")) in H.
  vm_compute in H. discriminate.
Qed.

(** C7 (as the code has it).  The lookup depends on the handle only up to
    letter case; the entry stored under a key is found under every
    spelling of that key; a handle without mapping gets the empty list;
    every domain returned is non-empty and lowercase.  Nothing removes
    repeated domains. *)
Theorem lookup_case_insensitive (files : list CsvFile) :
  let table := IndiewebMappings.loadAll files in
  (forall h h', Js.toLowerCase h = Js.toLowerCase h' ->
     IndiewebMappings.getDomainsForHandle table h
     = IndiewebMappings.getDomainsForHandle table h')
  /\ (forall k ds h, table !! k = Some ds -> Js.toLowerCase h = Js.toLowerCase k ->
        IndiewebMappings.getDomainsForHandle table h = ds)
  /\ (forall h, IndiewebMappings.hasMapping table h = false ->
        IndiewebMappings.getDomainsForHandle table h = [])
  /\ (forall h, Forall domainOk (IndiewebMappings.getDomainsForHandle table h)).
Proof.
  intros table. repeat split.
  - intros h h' H. unfold IndiewebMappings.getDomainsForHandle. by rewrite H.
  - intros k ds h Hk Hh. unfold IndiewebMappings.getDomainsForHandle.
    destruct (loadAll_wf files _ _ Hk) as [Hlow _].
    by rewrite Hh, Hlow, Hk.
  - intros h. unfold IndiewebMappings.hasMapping, IndiewebMappings.getDomainsForHandle.
    intros H. apply bool_decide_eq_false in H.
    destruct (table !! Js.toLowerCase h) eqn:E; [|done].
    exfalso. apply H. by eexists.
  - intros h. apply getDomainsForHandle_ok.
Qed.

(** C7 fails as stated: a mapping file that lists the row [a.com,b.com]
    twice makes the lookup of [a.com] return [b.com] twice. *)
Lemma lookup_repeats_domain :
  let table :=
    IndiewebMappings.loadAll
      [FileContent ("a.com,b.com" +:+ Example.nl +:+ "a.com,b.com")] in
  IndiewebMappings.getDomainsForHandle table "a.com" = ["b.com"; "b.com"]
  /\ ~ NoDup (IndiewebMappings.getDomainsForHandle table "a.com").
Proof.
  assert (E : IndiewebMappings.getDomainsForHandle
                (IndiewebMappings.loadAll
                   [FileContent ("a.com,b.com" +:+ Example.nl +:+ "a.com,b.com")])
                "a.com" = ["b.com"; "b.com"]) by (by vm_compute).
  simpl. split; [exact E|]. rewrite E.
  intros H. apply NoDup_cons in H as [H _]. apply H. by left.
Qed.

(* ===================================================================== *)
(** ** The tables                                                        *)
(* ===================================================================== *)

Section TableFacts.
Context {Row : Type} (key : Row -> string).

Lemma hasKey_In k (table : list Row) :
  Db.hasKey key k table = true <-> In k (List.map key table).
Proof.
  unfold Db.hasKey. rewrite existsb_exists, in_map_iff.
  split; intros (row & H1 & H2).
  - exists row. split; [by apply String.eqb_eq|done].
  - exists row. split; [done|by apply String.eqb_eq].
Qed.

Lemma hasKey_false k (table : list Row) :
  Db.hasKey key k table = false <-> ~ In k (List.map key table).
Proof. rewrite <- hasKey_In. by destruct (Db.hasKey key k table). Qed.

Lemma insertOrIgnore_nil (table : list Row) : Db.insertOrIgnore key [] table = table.
Proof. reflexivity. Qed.

Lemma insertOrIgnore_cons row rows (table : list Row) :
  Db.insertOrIgnore key (row :: rows) table
  = Db.insertOrIgnore key rows
      (if Db.hasKey key (key row) table then table else table ++ [row]).
Proof. reflexivity. Qed.

(** Inserting a row whose [uri] is present changes nothing. *)
Lemma insertOrIgnore_present row (table : list Row) :
  Db.hasKey key (key row) table = true ->
  Db.insertOrIgnore key [row] table = table.
Proof. intros H. rewrite insertOrIgnore_cons, H. reflexivity. Qed.

Lemma insertOrIgnore_keys rows : forall (table : list Row) k,
  In k (List.map key (Db.insertOrIgnore key rows table))
  <-> In k (List.map key table) \/ In k (List.map key rows).
Proof.
  induction rows as [|row rows IH]; intros table k.
  - simpl. tauto.
  - rewrite insertOrIgnore_cons, IH. simpl.
    destruct (Db.hasKey key (key row) table) eqn:E.
    + apply hasKey_In in E. split; [tauto|].
      intros [H|[<-|H]]; tauto.
    + rewrite List.map_app, in_app_iff. simpl. tauto.
Qed.

Lemma insertOrIgnore_rows rows : forall (table : list Row) r,
  In r (Db.insertOrIgnore key rows table) -> In r table \/ In r rows.
Proof.
  induction rows as [|row rows IH]; intros table r H.
  - by left.
  - rewrite insertOrIgnore_cons in H. apply IH in H as [H|H]; [|right; by right].
    destruct (Db.hasKey key (key row) table); [by left|].
    apply in_app_iff in H as [H|[<-|[]]]; [by left|right; by left].
Qed.

Lemma insertOrIgnore_NoDup rows : forall table : list Row,
  NoDup (List.map key table) ->
  NoDup (List.map key (Db.insertOrIgnore key rows table)).
Proof.
  induction rows as [|row rows IH]; intros table H; [done|].
  rewrite insertOrIgnore_cons. apply IH.
  destruct (Db.hasKey key (key row) table) eqn:E; [done|].
  apply hasKey_false in E.
  rewrite List.map_app. simpl.
  apply NoDup_app. split; [done|]. split; [|apply NoDup_singleton].
  intros k Hk Hin. apply list_elem_of_In in Hin as [<-|[]].
  by apply E, list_elem_of_In.
Qed.

Lemma deleteWhereUriIn_keys uris (table : list Row) k :
  In k (List.map key (Db.deleteWhereUriIn key uris table))
  <-> In k (List.map key table) /\ ~ In k uris.
Proof.
  unfold Db.deleteWhereUriIn. rewrite !in_map_iff. split.
  - intros (row & <- & H). apply filter_In in H as [H1 H2].
    split; [by exists row|].
    intros Hin. apply negb_true_iff in H2.
    assert (existsb (String.eqb (key row)) uris = true); [|congruence].
    apply existsb_exists. exists (key row). split; [done|apply String.eqb_refl].
  - intros [(row & <- & H) Hn]. exists row. split; [done|].
    apply filter_In. split; [done|]. apply negb_true_iff.
    destruct (existsb _ uris) eqn:E; [|done].
    apply existsb_exists in E as (u & Hu & E). apply String.eqb_eq in E.
    by subst u.
Qed.

Lemma deleteWhereUriIn_nil (table : list Row) :
  Db.deleteWhereUriIn key [] table = table.
Proof.
  unfold Db.deleteWhereUriIn. induction table as [|row t IH]; simpl; [done|].
  f_equal. exact IH.
Qed.

Lemma deleteWhereUriIn_NoDup uris (table : list Row) :
  NoDup (List.map key table) ->
  NoDup (List.map key (Db.deleteWhereUriIn key uris table)).
Proof.
  unfold Db.deleteWhereUriIn.
  induction table as [|row t IH]; simpl; intros H; [done|].
  apply NoDup_cons in H as [Hn H].
  destruct (negb _); simpl; [|by apply IH].
  apply NoDup_cons. split; [|by apply IH].
  intros Hin. apply Hn. apply list_elem_of_In. apply list_elem_of_In in Hin.
  apply in_map_iff in Hin as (r & <- & Hr). apply filter_In in Hr as [Hr _].
  apply in_map_iff. by exists r.
Qed.

End TableFacts.

(* ===================================================================== *)
(** ** The subscription                                                  *)
(* ===================================================================== *)

Lemma bind_run {A B : Type} (m : M A) (k : A -> M B) (w : World) :
  bind m k w = k (fst (m w)) (snd (m w)).
Proof. unfold bind. by destruct (m w). Qed.

Lemma world_eta (w : World) :
  {| post := post w; indieweb_post := indieweb_post w;
     resolverCalls := resolverCalls w; clockReads := clockReads w |} = w.
Proof. by destruct w. Qed.

Lemma guarded_deleteFromPost uris w :
  (if (0 <? length uris)%nat then deleteFromPost uris else ret tt) w
  = deleteFromPost uris w.
Proof.
  destruct uris as [|u uris]; [|done].
  unfold deleteFromPost, ret, setPost. simpl.
  by rewrite deleteWhereUriIn_nil, world_eta.
Qed.

Lemma guarded_insertIntoPost values w :
  (if (0 <? length values)%nat then insertIntoPost values else ret tt) w
  = insertIntoPost values w.
Proof.
  destruct values as [|v values]; [|done].
  unfold insertIntoPost, ret, setPost. simpl. by rewrite world_eta.
Qed.

Lemma guarded_deleteFromIndiewebPost uris w :
  (if (0 <? length uris)%nat then deleteFromIndiewebPost uris else ret tt) w
  = deleteFromIndiewebPost uris w.
Proof.
  destruct uris as [|u uris]; [|done].
  unfold deleteFromIndiewebPost, ret, setIndiewebPost. simpl.
  by rewrite deleteWhereUriIn_nil, world_eta.
Qed.

Lemma guarded_insertIntoIndiewebPost values w :
  (if (0 <? length values)%nat then insertIntoIndiewebPost values else ret tt) w
  = insertIntoIndiewebPost values w.
Proof.
  destruct values as [|v values]; [|done].
  unfold insertIntoIndiewebPost, ret, setIndiewebPost. simpl. by rewrite world_eta.
Qed.

Section SubscriptionFacts.

Context {Commit : Type}.
Variable getOpsByType : Commit -> OperationsByType.
Variable urlHostname : string -> option string.
Variable clock : nat -> string.
Variable didResolver : string -> ResolveResult.
Variable indiewebMappings : Mappings.

Local Abbreviation classifyCreate' :=
  (classifyCreate urlHostname clock didResolver indiewebMappings).
Local Abbreviation classifyCreates' :=
  (classifyCreates urlHostname clock didResolver indiewebMappings).
Local Abbreviation stagingHandle' :=
  (stagingHandle urlHostname didResolver indiewebMappings).
Local Abbreviation handleEvent' :=
  (handleEvent getOpsByType urlHostname clock didResolver indiewebMappings).

(** One pass of the loop body, in closed form. *)
Lemma classifyCreate_run create w :
  classifyCreate' create w =
  match stagingHandle' create with
  | Some _ =>
      (Some {| uri := create_uri create; cid := create_cid create;
               author := create_author create;
               indexedAt := clock (clockReads w) |},
       {| post := post w; indieweb_post := indieweb_post w;
          resolverCalls := create_author create :: resolverCalls w;
          clockReads := S (clockReads w) |})
  | None =>
      (None,
       {| post := post w; indieweb_post := indieweb_post w;
          resolverCalls :=
            match extractAllLinks (record create) with
            | [] => resolverCalls w
            | _ :: _ => create_author create :: resolverCalls w
            end;
          clockReads := clockReads w |})
  end.
Proof.
  unfold classifyCreate, stagingHandle.
  destruct (extractAllLinks (record create)) as [|link links] eqn:Hlinks; simpl.
  { unfold ret. by rewrite world_eta. }
  unfold getHandleFromDid. rewrite !bind_run. simpl.
  destruct (handleOfResult (didResolver (create_author create))) as [handle|];
    [|done].
  destruct (Js.isEmpty handle); [done|].
  destruct (hasMatch _ _ _ _); [|done].
  by rewrite bind_run.
Qed.

Lemma classifyCreate_tables create w :
  post (snd (classifyCreate' create w)) = post w
  /\ indieweb_post (snd (classifyCreate' create w)) = indieweb_post w.
Proof. rewrite classifyCreate_run. by destruct (stagingHandle' create). Qed.

Lemma classifyCreates_tables creates : forall acc w,
  post (snd (classifyCreates' creates acc w)) = post w
  /\ indieweb_post (snd (classifyCreates' creates acc w)) = indieweb_post w.
Proof.
  induction creates as [|create rest IH]; intros acc w; simpl; [done|].
  rewrite bind_run.
  destruct (IH (match fst (classifyCreate' create w) with
                | Some row => acc ++ [row] | None => acc end)
               (snd (classifyCreate' create w))) as [-> ->].
  apply classifyCreate_tables.
Qed.

(** Rows already pushed stay in [indiewebPostsToCreate]. *)
Lemma classifyCreates_keeps creates : forall acc w row,
  In row acc -> In row (fst (classifyCreates' creates acc w)).
Proof.
  induction creates as [|create rest IH]; intros acc w row H; simpl; [done|].
  rewrite bind_run. apply IH.
  destruct (fst (classifyCreate' create w)); [|done].
  apply in_app_iff. by left.
Qed.

(** Every row pushed comes from a create that was accepted, and carries
    that create's [uri], [cid] and [author]. *)
Lemma classifyCreates_rows creates : forall acc w row,
  In row (fst (classifyCreates' creates acc w)) ->
  In row acc
  \/ exists create, In create creates /\ is_Some (stagingHandle' create)
       /\ uri row = create_uri create /\ cid row = create_cid create
       /\ author row = create_author create.
Proof.
  induction creates as [|create rest IH]; intros acc w row H; simpl in H;
    [by left|].
  rewrite bind_run in H. apply IH in H as [H|(c & Hc & H)].
  - rewrite classifyCreate_run in H.
    destruct (stagingHandle' create) as [h|] eqn:Hadm; simpl in H; [|by left].
    apply in_app_iff in H as [H|[<-|[]]]; [by left|].
    right. exists create. rewrite Hadm. repeat split; [by left|by eexists].
  - right. exists c. split; [by right|done].
Qed.

(** Every accepted create is pushed. *)
Lemma classifyCreates_stages creates : forall acc w create,
  In create creates -> is_Some (stagingHandle' create) ->
  In (create_uri create) (List.map uri (fst (classifyCreates' creates acc w))).
Proof.
  induction creates as [|c rest IH]; intros acc w create Hin Hadm; [done|].
  simpl. rewrite bind_run. destruct Hin as [->|Hin]; [|by apply IH].
  apply in_map_iff.
  rewrite classifyCreate_run. destruct Hadm as [h ->]. simpl.
  eexists. split; [|apply classifyCreates_keeps, in_app_iff; right; by left].
  reflexivity.
Qed.

(** A batch of posts without links never reaches the resolver. *)
Lemma classifyCreates_no_links creates : forall acc w,
  Forall (fun create => extractAllLinks (record create) = []) creates ->
  classifyCreates' creates acc w = (acc, w).
Proof.
  induction creates as [|create rest IH]; intros acc w H; simpl; [done|].
  apply Forall_cons in H as [Hc H].
  rewrite bind_run, classifyCreate_run.
  unfold stagingHandle. rewrite Hc. simpl. rewrite world_eta. by apply IH.
Qed.

Lemma mapM_toPostRow_tables creates : forall w,
  post (snd (mapM (toPostRow clock) creates w)) = post w
  /\ indieweb_post (snd (mapM (toPostRow clock) creates w)) = indieweb_post w.
Proof.
  induction creates as [|create rest IH]; intros w; simpl; [done|].
  rewrite !bind_run. simpl.
  match goal with |- context [mapM _ rest ?w1] => by destruct (IH w1) as [-> ->] end.
Qed.

Lemma mapM_toPostRow_uris creates : forall w,
  List.map post_uri (fst (mapM (toPostRow clock) creates w))
  = List.map create_uri creates.
Proof.
  induction creates as [|create rest IH]; intros w; simpl; [done|].
  rewrite !bind_run. simpl. by rewrite IH.
Qed.

Lemma stagingHandle_Some create handle :
  stagingHandle' create = Some handle ->
  extractAllLinks (record create) <> []
  /\ handleOfResult (didResolver (create_author create)) = Some handle
  /\ handle <> ""
  /\ hasMatch urlHostname handle
       (IndiewebMappings.getDomainsForHandle indiewebMappings handle)
       (extractAllLinks (record create)) = true.
Proof.
  unfold stagingHandle.
  destruct (extractAllLinks (record create)) as [|link links]; [done|].
  destruct (handleOfResult _) as [h|]; [|done].
  destruct (Js.isEmpty h) eqn:He; [done|].
  destruct (hasMatch _ _ _ _) eqn:Hm; [|done].
  intros [= ->]. repeat split; [done|by apply isEmpty_false|done].
Qed.

(** The whole of [handleEvent] on a commit: both tables are the old
    table with the batch's deletions removed first and the staged rows
    inserted afterwards. *)
Lemma handleEvent_commit commit w :
  let ops := posts (getOpsByType commit) in
  let dels := List.map delete_uri (deletes ops) in
  exists postsToCreate indiewebPostsToCreate w',
    handleEvent' (CommitEvent commit) w = (tt, w')
    /\ post w' = Db.insertOrIgnore post_uri postsToCreate
                   (Db.deleteWhereUriIn post_uri dels (post w))
    /\ indieweb_post w' = Db.insertOrIgnore uri indiewebPostsToCreate
                            (Db.deleteWhereUriIn uri dels (indieweb_post w))
    /\ List.map post_uri postsToCreate
       = List.map create_uri (List.filter isAlfRelated (creates ops))
    /\ (forall row, In row indiewebPostsToCreate ->
          exists create, In create (creates ops)
            /\ is_Some (stagingHandle' create)
            /\ uri row = create_uri create /\ cid row = create_cid create
            /\ author row = create_author create)
    /\ (forall create, In create (creates ops) ->
          is_Some (stagingHandle' create) ->
          In (create_uri create) (List.map uri indiewebPostsToCreate)).
Proof.
  intros ops dels. unfold handleEvent. fold ops. fold dels.
  rewrite bind_run.
  set (staging := mapM (toPostRow clock) (List.filter isAlfRelated (creates ops)) w).
  rewrite bind_run, guarded_deleteFromPost.
  rewrite bind_run, guarded_insertIntoPost.
  rewrite bind_run.
  set (w2 := snd (insertIntoPost _ _)).
  set (classified := classifyCreates' (creates ops) [] w2).
  rewrite bind_run, guarded_deleteFromIndiewebPost.
  rewrite guarded_insertIntoIndiewebPost.
  destruct (mapM_toPostRow_tables (List.filter isAlfRelated (creates ops)) w)
    as [Hp Hi].
  destruct (classifyCreates_tables (creates ops) [] w2) as [Hp2 Hi2].
  fold staging in Hp, Hi. fold classified in Hp2, Hi2.
  assert (Hw2p : post w2 = Db.insertOrIgnore post_uri (fst staging)
                             (Db.deleteWhereUriIn post_uri dels (post w))).
  { unfold w2. simpl. by rewrite Hp. }
  assert (Hw2i : indieweb_post w2 = indieweb_post w).
  { unfold w2. simpl. by rewrite Hi. }
  exists (fst staging), (fst classified). eexists. split; [reflexivity|].
  assert (Huris := mapM_toPostRow_uris (List.filter isAlfRelated (creates ops)) w).
  fold staging in Huris.
  assert (Hrows := classifyCreates_rows (creates ops) [] w2).
  assert (Hadm := classifyCreates_stages (creates ops) [] w2).
  fold classified in Hrows, Hadm.
  clearbody classified w2 staging.
  unfold setIndiewebPost, deleteFromIndiewebPost. simpl.
  rewrite Hp2, Hi2, Hw2p, Hw2i.
  repeat split.
  - exact Huris.
  - intros row Hrow. apply Hrows in Hrow as [[]|H]. exact H.
  - exact Hadm.
Qed.

Lemma handleEvent_NoDup evt w :
  NoDup (List.map post_uri (post w)) ->
  NoDup (List.map uri (indieweb_post w)) ->
  NoDup (List.map post_uri (post (snd (handleEvent' evt w))))
  /\ NoDup (List.map uri (indieweb_post (snd (handleEvent' evt w)))).
Proof.
  intros Hp Hi. destruct evt as [commit|type]; [|done].
  destruct (handleEvent_commit commit w)
    as (ps & ips & w' & Hrun & Hp' & Hi' & _).
  rewrite Hrun. simpl. rewrite Hp', Hi'.
  split; by apply insertOrIgnore_NoDup, deleteWhereUriIn_NoDup.
Qed.

(** C2 (as the code has it).  When the loop body stages a row for a
    create, the row carries the create's [uri] and [cid], the clock
    reading taken at that moment, and as [author] the create's own
    author identifier, the one handed to the resolver; the handle the
    resolver answered only decides the admission. *)
Theorem staged_row_author_is_did create w row w' :
  classifyCreate' create w = (Some row, w') ->
  uri row = create_uri create
  /\ cid row = create_cid create
  /\ author row = create_author create
  /\ indexedAt row = clock (clockReads w)
  /\ resolverCalls w' = create_author create :: resolverCalls w
  /\ exists handle,
       handleOfResult (didResolver (create_author create)) = Some handle
       /\ handle <> ""
       /\ hasMatch urlHostname handle
            (IndiewebMappings.getDomainsForHandle indiewebMappings handle)
            (extractAllLinks (record create)) = true.
Proof.
  rewrite classifyCreate_run.
  destruct (stagingHandle' create) as [handle|] eqn:Hadm; [|done].
  intros [= <- <-]. simpl. repeat split.
  exists handle. by apply stagingHandle_Some in Hadm as (_ & ? & ? & ?).
Qed.

(** C3 (as the code has it).  On each table the batch's deletions are
    applied to the old rows first and the staged rows are inserted
    afterwards.  So a uri that the batch deletes and does not stage ends
    without a row, and a uri that the batch both deletes and stages (an
    [alf] post for [post], an accepted post for [indieweb_post]) ends
    WITH a row. *)
Theorem deletes_then_inserts commit w :
  let ops := posts (getOpsByType commit) in
  let dels := List.map delete_uri (deletes ops) in
  let w' := snd (handleEvent' (CommitEvent commit) w) in
  exists postsToCreate indiewebPostsToCreate,
    post w' = Db.insertOrIgnore post_uri postsToCreate
                (Db.deleteWhereUriIn post_uri dels (post w))
    /\ indieweb_post w' = Db.insertOrIgnore uri indiewebPostsToCreate
                            (Db.deleteWhereUriIn uri dels (indieweb_post w))
    /\ List.map post_uri postsToCreate
       = List.map create_uri (List.filter isAlfRelated (creates ops))
    /\ (forall row, In row indiewebPostsToCreate ->
          exists create, In create (creates ops)
            /\ is_Some (stagingHandle' create)
            /\ uri row = create_uri create /\ cid row = create_cid create
            /\ author row = create_author create)
    /\ (forall u, In u dels ->
          (~ In u (List.map post_uri postsToCreate) ->
           Db.hasKey post_uri u (post w') = false)
          /\ (~ In u (List.map uri indiewebPostsToCreate) ->
              Db.hasKey uri u (indieweb_post w') = false))
    /\ (forall create, In create (creates ops) ->
          In (create_uri create) dels ->
          (isAlfRelated create = true ->
           Db.hasKey post_uri (create_uri create) (post w') = true)
          /\ (is_Some (stagingHandle' create) ->
              Db.hasKey uri (create_uri create) (indieweb_post w') = true)).
Proof.
  intros ops dels w'.
  destruct (handleEvent_commit commit w)
    as (ps & ips & w1 & Hrun & Hp & Hi & Hps & Hrows & His).
  fold ops in Hps, Hrows, His. fold dels in Hp, Hi.
  assert (w' = w1) as -> by (unfold w'; by rewrite Hrun).
  exists ps, ips. split; [done|]. split; [done|]. split; [done|].
  split; [done|]. split.
  - intros u Hu. split; intros Hn; apply hasKey_false.
    + rewrite Hp, insertOrIgnore_keys, deleteWhereUriIn_keys. tauto.
    + rewrite Hi, insertOrIgnore_keys, deleteWhereUriIn_keys. tauto.
  - intros create Hin _. split; intros H; apply hasKey_In.
    + rewrite Hp, insertOrIgnore_keys. right. rewrite Hps.
      apply in_map, filter_In. by split.
    + rewrite Hi, insertOrIgnore_keys. right. by apply His.
Qed.

(** C10.  An event that is not a commit leaves the world as it was: no
    row of [post] or [indieweb_post] changes, the resolver is not
    called and the clock is not read. *)
Theorem non_commit_event_is_ignored evt w :
  isCommit evt = false ->
  handleEvent' evt w = (tt, w)
  /\ post (snd (handleEvent' evt w)) = post w
  /\ indieweb_post (snd (handleEvent' evt w)) = indieweb_post w.
Proof. destruct evt as [commit|type]; [done|]. by intros _. Qed.

End SubscriptionFacts.

(* ===================================================================== *)
(** ** The classifier                                                    *)
(* ===================================================================== *)

Section ClassifierFacts.

Variable urlHostname : string -> option string.

Local Abbreviation getDomainFromUrl' := (getDomainFromUrl urlHostname).
Local Abbreviation matchLinks' := (matchLinks urlHostname).
Local Abbreviation linkMatches' := (linkMatches urlHostname).
Local Abbreviation specAcceptsLink' := (specAcceptsLink urlHostname).

Lemma getDomainFromUrl_lowercase link domain :
  getDomainFromUrl' link = Some domain -> Js.toLowerCase domain = domain.
Proof.
  unfold getDomainFromUrl. destruct (urlHostname link); [|done].
  intros [= <-]. apply toLowerCase_idem.
Qed.

Lemma matchLinks_cons handle csv link rest :
  matchLinks' handle csv (link :: rest)
  = if linkMatches' handle csv link then (true, [link])
    else (fst (matchLinks' handle csv rest),
          link :: snd (matchLinks' handle csv rest)).
Proof.
  simpl. unfold linkMatches.
  destruct (matchLinks' handle csv rest) as [b parsed]. simpl.
  destruct (getDomainFromUrl' link) as [domain|]; [|done].
  destruct (Js.isEmpty domain); [done|]. simpl.
  destruct (directMatch handle domain); [done|]. simpl.
  by destruct (csvMatch csv domain).
Qed.

Lemma csvMatch_In csv domain :
  csvMatch csv domain = true <-> In (Js.toLowerCase domain) csv.
Proof.
  unfold csvMatch. rewrite existsb_exists. split.
  - intros (d & Hd & E). apply String.eqb_eq in E. by subst d.
  - intros H. eexists. split; [exact H|apply String.eqb_refl].
Qed.

(** The test the loop applies to one link agrees with the rule of the
    specification, for a resolved handle and a domain set of the registry. *)
Lemma linkMatches_spec handle csv link :
  handle <> "" -> Forall domainOk csv ->
  linkMatches' handle csv link = true <-> specAcceptsLink' handle csv link.
Proof.
  intros Hh Hcsv. unfold linkMatches, specAcceptsLink.
  destruct (getDomainFromUrl' link) as [domain|] eqn:Hd.
  2:{ split; [done|]. by intros (d & ? & _). }
  assert (Hlow := getDomainFromUrl_lowercase _ _ Hd).
  rewrite andb_true_iff, orb_true_iff, negb_true_iff, isEmpty_false.
  rewrite csvMatch_In, Hlow. unfold directMatch.
  rewrite andb_true_iff, negb_true_iff, String.eqb_eq, Hlow.
  split.
  - intros [_ H]. exists domain. split; [done|]. rewrite Hlow. tauto.
  - intros (d & [= <-] & H). rewrite Hlow in H. split; [|tauto].
    intros ->. destruct H as [[H _]|H].
    + destruct handle; [done|discriminate].
    + rewrite Forall_forall in Hcsv. apply list_elem_of_In in H.
      by destruct (Hcsv _ H).
Qed.

Lemma matchLinks_true handle csv links :
  fst (matchLinks' handle csv links) = true
  <-> exists link, In link links /\ linkMatches' handle csv link = true.
Proof.
  induction links as [|link rest IH].
  - simpl. split; [done|]. by intros (? & [] & _).
  - rewrite matchLinks_cons.
    destruct (linkMatches' handle csv link) eqn:E; simpl.
    + split; [|done]. intros _. exists link. split; [by left|done].
    + rewrite IH. split.
      * intros (l & Hl & H). exists l. split; [by right|done].
      * intros (l & [<-|Hl] & H); [congruence|]. by exists l.
Qed.

(** The loop stops at the first matching link: later links are not parsed. *)
Lemma matchLinks_first handle csv before link rest :
  (forall l, In l before -> linkMatches' handle csv l = false) ->
  linkMatches' handle csv link = true ->
  matchLinks' handle csv (before ++ link :: rest) = (true, before ++ [link]).
Proof.
  induction before as [|l before IH]; intros Hbefore Hlink.
  - simpl app. by rewrite matchLinks_cons, Hlink.
  - simpl app. rewrite matchLinks_cons, (Hbefore l) by (by left).
    rewrite IH; [done| |done]. intros l' Hl'. apply Hbefore. by right.
Qed.

Lemma matchLinks_none handle csv links :
  (forall l, In l links -> linkMatches' handle csv l = false) ->
  matchLinks' handle csv links = (false, links).
Proof.
  induction links as [|l links IH]; intros H; [done|].
  rewrite matchLinks_cons, (H l) by (by left).
  rewrite IH; [done|]. intros l' Hl'. apply H. by right.
Qed.

End ClassifierFacts.

(** The loop body against the rule on the domain that [getDomainFromUrl]
    derives and the list that [getDomainsForHandle] returns; the theorem
    on the classifier below restates it on the parser's host name and on
    the rows of the mapping file. *)
Lemma classifyCreate_accepts_derived
    (urlHostname : string -> option string) (clock : nat -> string)
    (didResolver : string -> ResolveResult) (files : list CsvFile)
    (create : CreateOp) (handle : string) (w : World) :
  extractAllLinks (record create) <> [] ->
  handleOfResult (didResolver (create_author create)) = Some handle ->
  handle <> "" ->
  let table := IndiewebMappings.loadAll files in
  let links := extractAllLinks (record create) in
  let domainSet := IndiewebMappings.getDomainsForHandle table handle in
  let accepts := specAcceptsLink urlHostname handle domainSet in
  (is_Some (fst (classifyCreate urlHostname clock didResolver table create w))
   <-> exists link, In link links /\ accepts link)
  /\ (forall before link rest,
        links = before ++ link :: rest ->
        (forall l, In l before -> ~ accepts l) -> accepts link ->
        matchLinks urlHostname handle domainSet links = (true, before ++ [link]))
  /\ ((forall l, In l links -> ~ accepts l) ->
      matchLinks urlHostname handle domainSet links = (false, links)
      /\ fst (classifyCreate urlHostname clock didResolver table create w) = None)
  /\ (forall l, urlHostname l = None -> ~ accepts l).
Proof.
  intros Hlinks Hres Hh table links domainSet accepts.
  assert (Hcsv : Forall domainOk domainSet) by apply getDomainsForHandle_ok.
  assert (Hspec : forall l, linkMatches urlHostname handle domainSet l = true
                            <-> accepts l).
  { intros l. by apply linkMatches_spec. }
  assert (Hno : forall l, ~ accepts l ->
                          linkMatches urlHostname handle domainSet l = false).
  { intros l Hl. destruct (linkMatches urlHostname handle domainSet l) eqn:E; [|done].
    by apply Hspec in E. }
  assert (Hfst : fst (classifyCreate urlHostname clock didResolver table create w)
                 = if hasMatch urlHostname handle domainSet links
                   then Some {| uri := create_uri create; cid := create_cid create;
                                author := create_author create;
                                indexedAt := clock (clockReads w) |}
                   else None).
  { rewrite classifyCreate_run. unfold stagingHandle. fold links.
    destruct links as [|l ls] eqn:El; [done|]. rewrite Hres.
    apply isEmpty_false in Hh. rewrite Hh. fold domainSet.
    by destruct (hasMatch _ _ _ _). }
  repeat split.
  - rewrite Hfst. intros Hsome.
    destruct (hasMatch urlHostname handle domainSet links) eqn:Hm;
      [|by destruct Hsome].
    apply matchLinks_true in Hm as (l & Hl & Hm). exists l. split; [done|].
    by apply Hspec.
  - intros (l & Hl & Hadm). rewrite Hfst.
    assert (hasMatch urlHostname handle domainSet links = true) as ->; [|by eexists].
    apply matchLinks_true. exists l. split; [done|]. by apply Hspec.
  - intros before link rest -> Hbefore Hlink.
    apply matchLinks_first; [|by apply Hspec].
    intros l Hl. by apply Hno, Hbefore.
  - apply matchLinks_none. intros l Hl. by apply Hno, H.
  - rewrite Hfst. unfold hasMatch. rewrite matchLinks_none; [done|].
    intros l Hl. by apply Hno, H.
  - intros l Hl (d & Hd & _). unfold getDomainFromUrl in Hd. by rewrite Hl in Hd.
Qed.

(** C5.  A create whose post has no link is passed over before the
    resolver is reached: the loop body returns no row and leaves the world
    (the record of resolver calls included) as it was, so its outcome is
    the same under any two resolvers; and a commit all of whose creates
    are without links has the same outcome under any two resolvers, with
    no resolver call made. *)
Theorem no_links_no_resolver_call
    {Commit : Type} (getOpsByType : Commit -> OperationsByType)
    (urlHostname : string -> option string) (clock : nat -> string)
    (resolver1 resolver2 : string -> ResolveResult) (mappings : Mappings) :
  (forall create w,
     extractAllLinks (record create) = [] ->
     classifyCreate urlHostname clock resolver1 mappings create w = (None, w)
     /\ classifyCreate urlHostname clock resolver1 mappings create w
        = classifyCreate urlHostname clock resolver2 mappings create w)
  /\ (forall commit w,
        Forall (fun create => extractAllLinks (record create) = [])
               (creates (posts (getOpsByType commit))) ->
        handleEvent getOpsByType urlHostname clock resolver1 mappings
                    (CommitEvent commit) w
        = handleEvent getOpsByType urlHostname clock resolver2 mappings
                      (CommitEvent commit) w
        /\ resolverCalls
             (snd (handleEvent getOpsByType urlHostname clock resolver1 mappings
                               (CommitEvent commit) w))
           = resolverCalls w).
Proof.
  assert (Hone : forall resolver create w,
            extractAllLinks (record create) = [] ->
            classifyCreate urlHostname clock resolver mappings create w = (None, w)).
  { intros resolver create w H. rewrite classifyCreate_run.
    unfold stagingHandle. rewrite H. by rewrite world_eta. }
  split.
  - intros create w H. by rewrite !Hone.
  - intros commit w H.
    assert (Hrun : forall resolver,
              handleEvent getOpsByType urlHostname clock resolver mappings
                          (CommitEvent commit) w
              = handleEvent getOpsByType urlHostname clock resolver1 mappings
                            (CommitEvent commit) w).
    { intros resolver. unfold handleEvent.
      rewrite !bind_run. rewrite !(classifyCreates_no_links _ _ _ _ _ _ _ H).
      done. }
    split; [by rewrite (Hrun resolver2)|].
    unfold handleEvent. rewrite !bind_run.
    rewrite !(classifyCreates_no_links _ _ _ _ _ _ _ H). simpl.
    rewrite guarded_deleteFromPost, guarded_insertIntoPost,
      guarded_deleteFromIndiewebPost.
    simpl. clear.
    generalize (List.filter isAlfRelated (creates (posts (getOpsByType commit)))).
    intros l. revert w. induction l as [|c l IH]; intros w; simpl; [done|].
    rewrite !bind_run. simpl. by rewrite IH.
Qed.

Lemma insertOrIgnore_all_present {Row : Type} (key : Row -> string) rows :
  forall table : list Row,
  (forall row, In row rows -> In (key row) (List.map key table)) ->
  Db.insertOrIgnore key rows table = table.
Proof.
  induction rows as [|row rows IH]; intros table H; [done|].
  rewrite insertOrIgnore_cons.
  assert (Db.hasKey key (key row) table = true) as ->.
  { apply hasKey_In, H. by left. }
  apply IH. intros r Hr. apply H. by right.
Qed.

(** C6.  Processing a commit a second time (at later clock readings)
    leaves at most one row per [uri] in [post] and in [indieweb_post]; when
    the commit carries creations only, the second pass changes neither
    table, because every row it stages meets the row of the first pass and
    is ignored; and inserting any row whose [uri] is present returns the
    table unchanged. *)
Theorem reprocessing_keeps_one_row_per_uri
    {Commit : Type} (getOpsByType : Commit -> OperationsByType)
    (urlHostname : string -> option string) (clock1 clock2 : nat -> string)
    (didResolver : string -> ResolveResult) (mappings : Mappings)
    (commit : Commit) (w : World) :
  NoDup (List.map post_uri (post w)) ->
  NoDup (List.map uri (indieweb_post w)) ->
  let once :=
    snd (handleEvent getOpsByType urlHostname clock1 didResolver mappings
                     (CommitEvent commit) w) in
  let twice :=
    snd (handleEvent getOpsByType urlHostname clock2 didResolver mappings
                     (CommitEvent commit) once) in
  NoDup (List.map post_uri (post twice))
  /\ NoDup (List.map uri (indieweb_post twice))
  /\ (deletes (posts (getOpsByType commit)) = [] ->
      post twice = post once /\ indieweb_post twice = indieweb_post once)
  /\ (forall row table, Db.hasKey post_uri (post_uri row) table = true ->
        Db.insertOrIgnore post_uri [row] table = table)
  /\ (forall row table, Db.hasKey uri (uri row) table = true ->
        Db.insertOrIgnore uri [row] table = table).
Proof.
  intros Hp Hi once twice.
  destruct (handleEvent_NoDup getOpsByType urlHostname clock1 didResolver mappings
              (CommitEvent commit) w Hp Hi) as [Hp1 Hi1].
  fold once in Hp1, Hi1.
  destruct (handleEvent_NoDup getOpsByType urlHostname clock2 didResolver mappings
              (CommitEvent commit) once Hp1 Hi1) as [Hp2 Hi2].
  fold twice in Hp2, Hi2.
  split; [done|]. split; [done|]. split.
  2:{ split; intros row table H; by apply insertOrIgnore_present. }
  intros Hdel.
  destruct (handleEvent_commit getOpsByType urlHostname clock1 didResolver mappings
              commit w) as (ps1 & ips1 & w1 & Hrun1 & Hpost1 & Hind1 & Hps1 & _ & Hadm1).
  destruct (handleEvent_commit getOpsByType urlHostname clock2 didResolver mappings
              commit once) as (ps2 & ips2 & w2 & Hrun2 & Hpost2 & Hind2 & Hps2 & Hrows2 & _).
  assert (once = w1) as E1 by (unfold once; by rewrite Hrun1).
  assert (twice = w2) as E2 by (unfold twice; by rewrite Hrun2).
  rewrite E2, Hpost2, Hind2. rewrite Hdel. simpl.
  rewrite !deleteWhereUriIn_nil. split.
  - apply insertOrIgnore_all_present. intros row Hrow.
    rewrite E1, Hpost1. apply insertOrIgnore_keys. right.
    rewrite Hps1, <- Hps2. by apply in_map.
  - apply insertOrIgnore_all_present. intros row Hrow.
    rewrite E1, Hind1. apply insertOrIgnore_keys. right.
    destruct (Hrows2 row Hrow) as (create & Hin & Hadm & -> & _).
    by apply Hadm1.
Qed.

(* ===================================================================== *)
(** ** Handle resolution                                                 *)
(* ===================================================================== *)

Lemma replace_prefix (handle : string) :
  Js.replace ("at://" +:+ handle) "at://" "" = handle.
Proof. reflexivity. Qed.

Lemma includes_cons c s p :
  Js.includes (String c s) p = Js.startsWith (String c s) p || Js.includes s p.
Proof. reflexivity. Qed.

Lemma replace_absent (s p r : string) :
  Js.includes s p = false -> Js.replace s p r = s.
Proof.
  induction s as [|c s IH].
  - simpl. destruct p; [done|]. by intros _.
  - rewrite includes_cons. intros H. apply orb_false_iff in H as [H1 H2].
    simpl Js.replace. rewrite H1. by rewrite IH.
Qed.

(** The parts of C8 that the code fulfils: [getHandleFromDid] always
    returns; it answers [null] when the resolver rejects, when there is no
    document, and when the alias list is missing or empty; an alias that
    begins with [at://] loses that prefix, and an alias that does not
    contain [at://] at all is returned as it is. *)
Lemma getHandleFromDid_ok
    (didResolver : string -> ResolveResult) (did : string) (w : World) :
  let result := fst (getHandleFromDid didResolver did w) in
  (didResolver did = ResolveThrows -> result = None)
  /\ (didResolver did = ResolveNull -> result = None)
  /\ (didResolver did = ResolveDoc {| alsoKnownAs := None |} -> result = None)
  /\ (didResolver did = ResolveDoc {| alsoKnownAs := Some [] |} -> result = None)
  /\ (forall handle others,
        didResolver did
        = ResolveDoc {| alsoKnownAs := Some (("at://" +:+ handle) :: others) |} ->
        result = Some handle)
  /\ (forall alias others,
        didResolver did = ResolveDoc {| alsoKnownAs := Some (alias :: others) |} ->
        alias <> "" -> Js.includes alias "at://" = false ->
        result = Some alias).
Proof.
  unfold getHandleFromDid. rewrite bind_run. simpl.
  repeat split; try (by intros ->).
  - intros handle others ->. reflexivity.
  - intros alias others -> Hne Hinc. simpl.
    apply isEmpty_false in Hne. rewrite Hne. by rewrite replace_absent.
Qed.

(** C8 fails on the code.  The first alias
    [https://example.com/?next=at://alice.example] does not begin with
    [at://], yet it is not returned unchanged: the marker inside it is cut
    out. *)
Theorem getHandleFromDid_cuts_inner_marker :
  let alias := "https://example.com/?next=at://alice.example" in
  Js.startsWith alias "at://" = false
  /\ fst (getHandleFromDid (Example.resolverTo alias) "did:web:example.com"
                           Example.emptyWorld)
     = Some "https://example.com/?next=alice.example"
  /\ fst (getHandleFromDid (Example.resolverTo alias) "did:web:example.com"
                           Example.emptyWorld)
     <> Some alias.
Proof. by vm_compute. Qed.

(** C9.  The suffix test compares letter case, the domain comparison does
    not.  The handle [alice.Bsky.Social] ends with [.bsky.social] only up
    to case; a post whose single link has a host name equal to that handle
    up to case is accepted, by the direct-match rule, whatever the
    registry holds. *)
Theorem suffix_test_is_case_sensitive
    (urlHostname : string -> option string) (clock : nat -> string)
    (didResolver : string -> ResolveResult) (mappings : Mappings)
    (create : CreateOp) (link hostname : string) (w : World) :
  let handle := "alice.Bsky.Social" in
  extractAllLinks (record create) = [link] ->
  urlHostname link = Some hostname ->
  Js.toLowerCase hostname = Js.toLowerCase handle ->
  handleOfResult (didResolver (create_author create)) = Some handle ->
  Js.endsWith (Js.toLowerCase handle) ".bsky.social" = true
  /\ Js.endsWith handle ".bsky.social" = false
  /\ directMatch handle (Js.toLowerCase hostname) = true
  /\ matchLinks urlHostname handle [] [link] = (true, [link])
  /\ is_Some (fst (classifyCreate urlHostname clock didResolver mappings create w)).
Proof.
  intros handle Hlinks Hhost Hlow Hres.
  assert (Hdirect : directMatch handle (Js.toLowerCase hostname) = true).
  { unfold directMatch. rewrite toLowerCase_idem, Hlow. by vm_compute. }
  assert (Hlink : forall csv, linkMatches urlHostname handle csv link = true).
  { intros csv. unfold linkMatches, getDomainFromUrl. rewrite Hhost, Hdirect.
    rewrite Hlow. by vm_compute. }
  split; [by vm_compute|]. split; [by vm_compute|]. split; [done|]. split.
  - by rewrite matchLinks_cons, Hlink.
  - rewrite classifyCreate_run. unfold stagingHandle.
    rewrite Hlinks, Hres. simpl Js.isEmpty. cbv iota.
    unfold hasMatch. rewrite matchLinks_cons, Hlink. simpl. by eexists.
Qed.

(* ===================================================================== *)
(** ** Worked examples                                                   *)
(* ===================================================================== *)

(** C2 fails as stated: the post of [did:plc:dominik], whose handle
    resolves to [dominik.social], is staged with [author] set to
    [did:plc:dominik], not to the handle. *)
Lemma staged_author_is_not_the_handle :
  let staged :=
    fst (classifyCreate Example.urlHostname Example.clock Example.dominikResolver ∅
                        Example.dominikCreate Example.emptyWorld) in
  handleOfResult (Example.dominikResolver "did:plc:dominik") = Some "dominik.social"
  /\ staged = Some Example.dominikRow
  /\ author Example.dominikRow = "did:plc:dominik"
  /\ author Example.dominikRow <> "dominik.social".
Proof. by vm_compute. Qed.

Lemma staged_row_author_is_did_witness :
  classifyCreate Example.urlHostname Example.clock Example.dominikResolver ∅
                 Example.dominikCreate Example.emptyWorld
  = (Some Example.dominikRow,
     {| post := []; indieweb_post := [];
        resolverCalls := ["did:plc:dominik"]; clockReads := 1 |})
  /\ author Example.dominikRow = create_author Example.dominikCreate.
Proof.
  split; [by vm_compute|].
  eapply (staged_row_author_is_did Example.urlHostname Example.clock
            Example.dominikResolver ∅ Example.dominikCreate Example.emptyWorld).
  by vm_compute.
Defined.

(** C3 fails as stated: a commit that creates the post and deletes the
    same uri, applied to empty tables, ends with a row for that uri in
    both tables. *)
Lemma create_and_delete_leaves_row :
  let w' :=
    snd (handleEvent Example.getOpsByType Example.urlHostname Example.clock
                     Example.dominikResolver ∅
                     (CommitEvent Example.createAndDelete) Example.emptyWorld) in
  indieweb_post w'
  = [ {| uri := Example.dominikUri; cid := "bafyreia"; author := "did:plc:dominik";
         indexedAt := Example.clock 1 |} ]
  /\ post w'
     = [ {| post_uri := Example.dominikUri; post_cid := "bafyreia";
            post_indexedAt := Example.clock 0 |} ]
  /\ Db.hasKey uri Example.dominikUri (indieweb_post w') = true
  /\ Db.hasKey post_uri Example.dominikUri (post w') = true.
Proof. by vm_compute. Qed.

Lemma deletes_then_inserts_witness :
  In Example.dominikCreate (creates (posts Example.createAndDelete))
  /\ In (create_uri Example.dominikCreate)
        (List.map delete_uri (deletes (posts Example.createAndDelete)))
  /\ Db.hasKey uri (create_uri Example.dominikCreate)
       (indieweb_post
          (snd (handleEvent Example.getOpsByType Example.urlHostname Example.clock
                            Example.dominikResolver ∅
                            (CommitEvent Example.createAndDelete)
                            Example.emptyWorld))) = true.
Proof.
  split; [by left|]. split; [by left|].
  destruct (deletes_then_inserts Example.getOpsByType Example.urlHostname
              Example.clock Example.dominikResolver ∅ Example.createAndDelete
              Example.emptyWorld) as (ps & ips & _ & _ & _ & _ & _ & H).
  apply (H Example.dominikCreate); [by left|by left|].
  vm_compute. by eexists.
Defined.

Lemma no_links_no_resolver_call_witness :
  extractAllLinks (record Example.plainCreate) = []
  /\ classifyCreate Example.urlHostname Example.clock Example.dominikResolver ∅
                    Example.plainCreate Example.emptyWorld
     = classifyCreate Example.urlHostname Example.clock Example.aliceResolver ∅
                      Example.plainCreate Example.emptyWorld.
Proof.
  split; [reflexivity|].
  apply (proj1 (no_links_no_resolver_call Example.getOpsByType Example.urlHostname
                  Example.clock Example.dominikResolver Example.aliceResolver ∅)).
  reflexivity.
Defined.

Lemma reprocessing_keeps_one_row_per_uri_witness :
  NoDup (List.map post_uri (post Example.emptyWorld))
  /\ NoDup (List.map uri (indieweb_post Example.emptyWorld))
  /\ NoDup (List.map uri (indieweb_post
       (snd (handleEvent Example.getOpsByType Example.urlHostname
               (fun n => Example.clock (n + 5)) Example.dominikResolver ∅
               (CommitEvent Example.createOnly)
               (snd (handleEvent Example.getOpsByType Example.urlHostname
                       Example.clock Example.dominikResolver ∅
                       (CommitEvent Example.createOnly) Example.emptyWorld)))))).
Proof.
  split; [constructor|]. split; [constructor|].
  apply (reprocessing_keeps_one_row_per_uri Example.getOpsByType Example.urlHostname
           Example.clock (fun n => Example.clock (n + 5)) Example.dominikResolver ∅
           Example.createOnly Example.emptyWorld); constructor.
Defined.

Lemma lookup_case_insensitive_witness :
  Js.toLowerCase "Dominik.Social" = Js.toLowerCase "dominik.social"
  /\ IndiewebMappings.getDomainsForHandle
       (IndiewebMappings.loadAll [FileContent "dominik.social,dominikhofer.me"])
       "Dominik.Social"
     = IndiewebMappings.getDomainsForHandle
         (IndiewebMappings.loadAll [FileContent "dominik.social,dominikhofer.me"])
         "dominik.social".
Proof.
  split; [reflexivity|].
  apply (proj1 (lookup_case_insensitive
                  [FileContent "dominik.social,dominikhofer.me"])).
  reflexivity.
Defined.

Lemma suffix_test_is_case_sensitive_witness :
  extractAllLinks (record Example.aliceCreate) = ["https://alice.bsky.social/x"]
  /\ Example.urlHostname "https://alice.bsky.social/x" = Some "alice.bsky.social"
  /\ Js.toLowerCase "alice.bsky.social" = Js.toLowerCase "alice.Bsky.Social"
  /\ handleOfResult (Example.aliceResolver (create_author Example.aliceCreate))
     = Some "alice.Bsky.Social"
  /\ is_Some (fst (classifyCreate Example.urlHostname Example.clock
                     Example.aliceResolver ∅ Example.aliceCreate
                     Example.emptyWorld)).
Proof.
  split; [reflexivity|]. split; [reflexivity|]. split; [reflexivity|].
  split; [reflexivity|].
  apply (suffix_test_is_case_sensitive Example.urlHostname Example.clock
           Example.aliceResolver ∅ Example.aliceCreate
           "https://alice.bsky.social/x" "alice.bsky.social" Example.emptyWorld);
    reflexivity.
Defined.

Lemma non_commit_event_is_ignored_witness :
  isCommit (OtherEvent (Commit := OperationsByType)
              "com.atproto.sync.subscribeRepos#identity") = false
  /\ handleEvent Example.getOpsByType Example.urlHostname Example.clock
                 Example.dominikResolver ∅
                 (OtherEvent "com.atproto.sync.subscribeRepos#identity")
                 Example.emptyWorld
     = (tt, Example.emptyWorld).
Proof.
  split; [reflexivity|].
  apply (non_commit_event_is_ignored Example.getOpsByType Example.urlHostname
           Example.clock Example.dominikResolver ∅
           (OtherEvent "com.atproto.sync.subscribeRepos#identity")
           Example.emptyWorld).
  reflexivity.
Defined.

(* ===================================================================== *)
(** ** More on the registry: what a load stores                          *)
(* ===================================================================== *)

Lemma addLine_rowOfLine n line (m : Mappings) :
  IndiewebMappings.addLine n line m
  = match rowOfLine n line with
    | Some (handle, domain) => <[handle := default [] (m !! handle) ++ [domain]]> m
    | None => m
    end.
Proof.
  unfold IndiewebMappings.addLine, rowOfLine.
  destruct (IndiewebMappings.isHeader n line); [done|].
  destruct (_ || _); [done|].
  destruct (_ <? _)%nat; [done|].
  by destruct (_ || _).
Qed.

Lemma domainsOf_app k rows1 rows2 :
  domainsOf k (rows1 ++ rows2) = domainsOf k rows1 ++ domainsOf k rows2.
Proof. unfold domainsOf. by rewrite List.filter_app, List.map_app. Qed.

Lemma lookup_addLine n line (m : Mappings) k :
  default [] (IndiewebMappings.addLine n line m !! k)
  = default [] (m !! k)
    ++ domainsOf k (match rowOfLine n line with Some row => [row] | None => [] end).
Proof.
  rewrite addLine_rowOfLine.
  destruct (rowOfLine n line) as [[handle domain]|]; simpl.
  2:{ by rewrite app_nil_r. }
  unfold domainsOf. simpl. rewrite lookup_insert. case_decide as Hk.
  - subst k. by rewrite String.eqb_refl.
  - apply String.eqb_neq in Hk. rewrite Hk. simpl. by rewrite app_nil_r.
Qed.

Lemma lookup_addLines lines : forall n (m : Mappings) k,
  default [] (IndiewebMappings.addLines n lines m !! k)
  = default [] (m !! k) ++ domainsOf k (rowsOfLines n lines).
Proof.
  induction lines as [|line rest IH]; intros n m k; simpl.
  - unfold domainsOf. simpl. by rewrite app_nil_r.
  - rewrite IH, lookup_addLine, <- app_assoc. f_equal.
    destruct (rowOfLine (S n) line) as [row|]; [|done].
    by rewrite <- domainsOf_app.
Qed.

(** X1.  After a load that reads [content], the lookup of a handle gives
    exactly the domains of the rows whose (lowercased) first field is that
    handle in lowercase, one entry per row and in the order of the file;
    rows loaded earlier play no part. *)
Theorem load_lookup_is_rows_in_file_order (content : string) (old : Mappings)
    (handle : string) :
  IndiewebMappings.getDomainsForHandle
    (IndiewebMappings.load (FileContent content) old) handle
  = domainsOf (Js.toLowerCase handle) (rowsOfLines 0 (keptLines content)).
Proof.
  unfold IndiewebMappings.getDomainsForHandle. simpl.
  unfold IndiewebMappings.parse. fold (keptLines content).
  rewrite lookup_addLines. by rewrite lookup_empty.
Qed.

Lemma listsNonEmpty_empty : listsNonEmpty ∅.
Proof. intros k ds H. by rewrite lookup_empty in H. Qed.

Lemma addLine_listsNonEmpty n line (m : Mappings) :
  listsNonEmpty m -> listsNonEmpty (IndiewebMappings.addLine n line m).
Proof.
  intros Hm. rewrite addLine_rowOfLine.
  destruct (rowOfLine n line) as [[handle domain]|]; [|done].
  intros k ds. rewrite lookup_insert. case_decide; [|apply Hm].
  intros [= <-]. by destruct (default [] (m !! handle)).
Qed.

Lemma addLines_listsNonEmpty lines : forall n (m : Mappings),
  listsNonEmpty m -> listsNonEmpty (IndiewebMappings.addLines n lines m).
Proof.
  induction lines as [|line rest IH]; intros n m Hm; simpl; [done|].
  by apply IH, addLine_listsNonEmpty.
Qed.

Lemma loadAll_listsNonEmpty files : listsNonEmpty (IndiewebMappings.loadAll files).
Proof.
  rewrite loadAll_lastCompleted.
  destruct (lastCompleted files) as [[| |content]|];
    try apply listsNonEmpty_empty.
  apply addLines_listsNonEmpty, listsNonEmpty_empty.
Qed.

(** X2.  On every table that loads produce, [hasMapping] and
    [getDomainsForHandle] agree: a handle has a mapping exactly when its
    lookup is not the empty list (no key is ever stored with an empty
    list). *)
Theorem hasMapping_iff_lookup_nonempty (files : list CsvFile) (handle : string) :
  IndiewebMappings.hasMapping (IndiewebMappings.loadAll files) handle = true
  <-> IndiewebMappings.getDomainsForHandle (IndiewebMappings.loadAll files) handle
      <> [].
Proof.
  unfold IndiewebMappings.hasMapping, IndiewebMappings.getDomainsForHandle.
  rewrite bool_decide_eq_true.
  destruct (IndiewebMappings.loadAll files !! Js.toLowerCase handle) as [ds|] eqn:E;
    simpl.
  - split; [|by eexists]. intros _. by apply (loadAll_listsNonEmpty files _ _ E).
  - split; [by intros [? ?]|done].
Qed.

(* ===================================================================== *)
(** ** More on the registry: lines that are passed over                  *)
(* ===================================================================== *)

Lemma split_no_separator (s : string) (sep : ascii) :
  occursIn sep s = false -> Js.split s sep = [s].
Proof.
  induction s as [|c s IH]; simpl; [done|].
  intros H. apply orb_false_iff in H as [Hc Hs].
  rewrite Hc. by rewrite (IH Hs).
Qed.

Lemma rowOfLine_no_comma n line :
  occursIn Js.comma line = false -> rowOfLine n line = None.
Proof.
  intros H. unfold rowOfLine. rewrite (split_no_separator _ _ H). simpl.
  destruct (IndiewebMappings.isHeader n line); [done|].
  by destruct (_ || _).
Qed.

Lemma rowOfLine_comment n line :
  Js.startsWith (Js.trim line) "#" = true -> rowOfLine n line = None.
Proof.
  intros H. unfold rowOfLine. rewrite H, orb_true_r.
  by destruct (IndiewebMappings.isHeader n line).
Qed.

(** X3.  Lines that are comments (first non-blank character [#]) and lines
    without any comma store nothing: a run of such lines leaves the table
    being built as it is, so a file made of them loads as the empty
    table. *)
Theorem comment_and_commaless_lines_store_nothing
    (lines : list string) (n : nat) (m : Mappings) :
  Forall (fun line => Js.startsWith (Js.trim line) "#" = true
                      \/ occursIn Js.comma line = false) lines ->
  IndiewebMappings.addLines n lines m = m.
Proof.
  revert n m. induction lines as [|line rest IH]; intros n m H; simpl; [done|].
  apply Forall_cons in H as [Hline Hrest].
  rewrite addLine_rowOfLine.
  assert (rowOfLine (S n) line = None) as ->.
  { destruct Hline; [by apply rowOfLine_comment|by apply rowOfLine_no_comma]. }
  by apply IH.
Qed.

Lemma toLowerCase_app (a b : string) :
  Js.toLowerCase (a +:+ b) = Js.toLowerCase a +:+ Js.toLowerCase b.
Proof. induction a as [|c a IH]; simpl; [done|]. by rewrite IH. Qed.

Lemma startsWith_app (s t p : string) :
  Js.startsWith s p = true -> Js.startsWith (s +:+ t) p = true.
Proof.
  revert s. induction p as [|a p IH]; intros s; simpl; [done|].
  destruct s as [|b s]; simpl; [done|].
  intros H. apply andb_true_iff in H as [H1 H2].
  by rewrite H1, (IH _ H2).
Qed.

Lemma includes_app (s t p : string) :
  Js.includes s p = true -> Js.includes (s +:+ t) p = true.
Proof.
  induction s as [|c s IH].
  - simpl. rewrite orb_false_r. intros H.
    destruct p; [by destruct t|done].
  - rewrite includes_cons. intros H.
    change (String c s +:+ t) with (String c (s +:+ t)).
    rewrite includes_cons.
    change (String c (s +:+ t)) with (String c s +:+ t).
    apply orb_true_iff in H as [H|H].
    + by rewrite (startsWith_app (String c s) t p H).
    + rewrite (IH H). apply orb_true_r.
Qed.

(** X4.  The header test looks at the whole first kept line: a data row
    whose handle field contains the letters [handle] (in any case) is
    dropped when it is the first kept line of the file, while the same row
    on a later line is not taken for a header. *)
Theorem first_line_with_handle_is_dropped
    (handleField tail : string) (rest : list string) (m : Mappings) :
  Js.includes (Js.toLowerCase handleField) "handle" = true ->
  IndiewebMappings.addLines 0 ((handleField +:+ tail) :: rest) m
  = IndiewebMappings.addLines 1 rest m
  /\ forall n, IndiewebMappings.isHeader (S (S n)) (handleField +:+ tail) = false.
Proof.
  intros H. split; [|done]. simpl.
  unfold IndiewebMappings.addLine, IndiewebMappings.isHeader. simpl Nat.eqb.
  rewrite toLowerCase_app. by rewrite (includes_app _ _ _ H).
Qed.

(* ===================================================================== *)
(** ** More on the registry: trailing white space                        *)
(* ===================================================================== *)

Lemma whiteSpace_facts (c : ascii) :
  Js.isWhiteSpace c = true ->
  Js.lowerChar c = c /\ Ascii.eqb c Js.comma = false
  /\ occursIn c "handle" = false.
Proof.
  destruct c as [[] [] [] [] [] [] [] []]; try discriminate; by vm_compute.
Qed.

Lemma startsWith_snoc (s p : string) (c : ascii) :
  occursIn c p = false ->
  Js.startsWith (s +:+ String c "") p = Js.startsWith s p.
Proof.
  revert s. induction p as [|a p IH]; intros s H; simpl; [done|].
  simpl in H. apply orb_false_iff in H as [Ha Hp].
  destruct s as [|b s]; simpl.
  - by rewrite Ha.
  - by rewrite (IH s Hp).
Qed.

Lemma includes_snoc (s p : string) (c : ascii) :
  occursIn c p = false ->
  Js.includes (s +:+ String c "") p = Js.includes s p.
Proof.
  intros H. induction s as [|b s IH].
  - change ("" +:+ String c "") with (String c ("" +:+ "")).
    rewrite includes_cons.
    change (String c ("" +:+ "")) with ("" +:+ String c "").
    rewrite (startsWith_snoc "" p c H). simpl.
    by destruct (Js.startsWith "" p).
  - change (String b s +:+ String c "") with (String b (s +:+ String c "")).
    rewrite !includes_cons, IH.
    change (String b (s +:+ String c "")) with (String b s +:+ String c "").
    by rewrite (startsWith_snoc (String b s) p c H).
Qed.

Lemma trimEnd_snoc (s : string) (c : ascii) :
  Js.isWhiteSpace c = true -> Js.trimEnd (s +:+ String c "") = Js.trimEnd s.
Proof.
  intros H. induction s as [|b s IH]; simpl.
  - by rewrite H.
  - by rewrite IH.
Qed.

Lemma trimStart_snoc (s : string) (c : ascii) :
  Js.isWhiteSpace c = true ->
  Js.trimStart (s +:+ String c "")
  = if Js.isEmpty (Js.trimStart s) then "" else Js.trimStart s +:+ String c "".
Proof.
  intros H. induction s as [|b s IH]; simpl.
  - by rewrite H.
  - destruct (Js.isWhiteSpace b); [exact IH|done].
Qed.

Lemma trim_snoc (s : string) (c : ascii) :
  Js.isWhiteSpace c = true -> Js.trim (s +:+ String c "") = Js.trim s.
Proof.
  intros H. unfold Js.trim. rewrite (trimStart_snoc s c H).
  destruct (Js.trimStart s) as [|b t] eqn:E; [done|].
  simpl Js.isEmpty. cbv iota. by apply trimEnd_snoc.
Qed.

Lemma split_snoc (s : string) (c sep : ascii) :
  Ascii.eqb c sep = false ->
  Forall2 (fun x y => x = y \/ x = y +:+ String c "")
          (Js.split (s +:+ String c "") sep) (Js.split s sep).
Proof.
  intros H. induction s as [|b s IH]; simpl.
  - rewrite H. constructor; [|constructor]. by right.
  - destruct (Ascii.eqb b sep).
    + constructor; [|done]. by left.
    + destruct IH as [|x y xs ys Hxy Hrest].
      * constructor; [|constructor]. by left.
      * constructor; [|done].
        destruct Hxy as [->| ->]; [by left|by right].
Qed.

Lemma map_trim_split_snoc (s : string) (c : ascii) :
  Js.isWhiteSpace c = true ->
  List.map Js.trim (Js.split (s +:+ String c "") Js.comma)
  = List.map Js.trim (Js.split s Js.comma).
Proof.
  intros H. destruct (whiteSpace_facts c H) as (_ & Hcomma & _).
  induction (split_snoc s c Js.comma Hcomma) as [|x y xs ys Hxy _ IH]; simpl; [done|].
  rewrite IH. f_equal. destruct Hxy as [->| ->]; [done|by apply trim_snoc].
Qed.

Lemma rowOfLine_snoc n line (c : ascii) :
  Js.isWhiteSpace c = true ->
  rowOfLine n (line +:+ String c "") = rowOfLine n line.
Proof.
  intros H. destruct (whiteSpace_facts c H) as (Hlow & _ & Hhandle).
  unfold rowOfLine, IndiewebMappings.isHeader.
  rewrite toLowerCase_app. simpl Js.toLowerCase at 2. rewrite Hlow.
  rewrite (includes_snoc _ _ _ Hhandle), (trim_snoc _ _ H).
  by rewrite (map_trim_split_snoc _ _ H).
Qed.

(** X5.  White space at the end of a line (a carriage return before the
    line feed, blanks, tabs) does not change what the line stores: files
    with CRLF line ends load like files with LF line ends. *)
Theorem trailing_white_space_is_ignored
    (n : nat) (line : string) (c : ascii) (m : Mappings) :
  Js.isWhiteSpace c = true ->
  IndiewebMappings.addLine n (line +:+ String c "") m
  = IndiewebMappings.addLine n line m.
Proof. intros H. by rewrite !addLine_rowOfLine, (rowOfLine_snoc _ _ _ H). Qed.

(* ===================================================================== *)
(** ** The reload timer: [start] and [stop]                              *)
(* ===================================================================== *)

Lemma clearInterval_fresh (timers : Reload.Timers) :
  timersFresh timers ->
  List.filter (fun t => negb (Nat.eqb t (Reload.nextTimer timers)))
              (Reload.running timers)
  = Reload.running timers.
Proof.
  unfold timersFresh. generalize (Reload.nextTimer timers) as n.
  induction (Reload.running timers) as [|t ts IH]; intros n H; simpl; [done|].
  assert (t < n) as Ht by (apply H; by left).
  assert (Nat.eqb t n = false) as -> by (apply Nat.eqb_neq; lia).
  simpl. f_equal. apply IH. intros t' Ht'. apply H. by right.
Qed.

(** X6.  [stop] undoes the timer of [start]: after [start] and then
    [stop] the timers running are those that ran before, the registry
    holds no timer, and the table is the one [start] loaded.  [stop] on a
    registry that was never started does nothing, and a second [stop]
    after a first does nothing either. *)
Theorem start_then_stop (file : CsvFile) (registry : Reload.Registry)
    (timers : Reload.Timers) :
  timersFresh timers ->
  let started := Reload.start file registry timers in
  let stopped := Reload.stop (fst started) (snd started) in
  Reload.running (snd stopped) = Reload.running timers
  /\ Reload.reloadTimer (fst stopped) = None
  /\ Reload.table (fst stopped)
     = IndiewebMappings.load file (Reload.table registry)
  /\ Reload.stop (fst stopped) (snd stopped) = stopped
  /\ (Reload.reloadTimer registry = None ->
      Reload.stop registry timers = (registry, timers)).
Proof.
  intros Hfresh. simpl. rewrite Nat.eqb_refl. simpl.
  rewrite (clearInterval_fresh timers Hfresh).
  repeat split. unfold Reload.stop. by intros ->.
Qed.

Lemma fire_fold files : forall registry : Reload.Registry,
  Reload.table (fold_left (fun r file => Reload.fire file r) files registry)
  = fold_left (fun mappings file => IndiewebMappings.load file mappings) files
              (Reload.table registry)
  /\ Reload.reloadTimer (fold_left (fun r file => Reload.fire file r) files registry)
     = Reload.reloadTimer registry.
Proof.
  induction files as [|file rest IH]; intros registry; simpl; [done|].
  by destruct (IH (Reload.fire file registry)) as [-> ->].
Qed.

(** X7.  A registry that is constructed (empty table, no timer), started,
    and whose timer then fires any number of times holds the table that
    the loads of [start] and of the firings produce in that order, and it
    still holds the timer that [start] set; no firing sets or clears a
    timer. *)
Theorem table_after_start_and_firings
    (file : CsvFile) (files : list CsvFile) (timers : Reload.Timers) :
  let constructed := {| Reload.table := ∅; Reload.reloadTimer := None |} in
  let started := Reload.start file constructed timers in
  let final := fold_left (fun r f => Reload.fire f r) files (fst started) in
  Reload.table final = IndiewebMappings.loadAll (file :: files)
  /\ Reload.reloadTimer final = Some (Reload.nextTimer timers)
  /\ Reload.running (snd started) = Reload.nextTimer timers :: Reload.running timers.
Proof.
  simpl. destruct (fire_fold files
    {| Reload.table := IndiewebMappings.load file ∅;
       Reload.reloadTimer := Some (Reload.nextTimer timers) |}) as [-> ->].
  by repeat split.
Qed.

(* ===================================================================== *)
(** ** Link extraction                                                   *)
(* ===================================================================== *)

(** X8.  A URL is among the extracted links exactly when some facet of the
    post has a link feature with that URL or the post's embed is an
    external link card with that URL; mentions, tags and other embeds give
    nothing, and the links of the facets come before the link of the
    embed. *)
Theorem extractAllLinks_membership (post : PostRecord) (url : string) :
  (In url (extractAllLinks post)
   <-> (exists fs facet, facets post = Some fs /\ In facet fs
                         /\ In (Link url) (features facet))
       \/ embed post = Some (External url))
  /\ extractAllLinks post
     = flat_map linksOfFacet (default [] (facets post))
       ++ match embed post with Some (External u) => [u] | _ => [] end.
Proof.
  split.
  2:{ unfold extractAllLinks. by destruct (facets post). }
  unfold extractAllLinks. rewrite in_app_iff. split.
  - intros [H|H].
    + left. destruct (facets post) as [fs|]; [|done].
      apply in_flat_map in H as (facet & Hf & H). exists fs, facet.
      split; [done|]. split; [done|].
      unfold linksOfFacet in H. apply in_flat_map in H as (feature & Hin & H).
      destruct feature; try done. by destruct H as [<-|[]].
    + right. destruct (embed post) as [[u|]|]; try done.
      by destruct H as [<-|[]].
  - intros [(fs & facet & -> & Hf & H)| ->].
    + left. apply in_flat_map. exists facet. split; [done|].
      unfold linksOfFacet. apply in_flat_map. exists (Link url).
      split; [done|]. by left.
    + right. by left.
Qed.

(** X9.  [getDomainFromUrl] answers [null] exactly when the URL does not
    parse; otherwise its answer is the host name in lowercase, so two URLs
    whose host names differ in letter case only give the same domain, and
    lowercasing the answer again changes nothing. *)
Theorem getDomainFromUrl_is_lowercase_hostname
    (urlHostname : string -> option string) (url : string) :
  (getDomainFromUrl urlHostname url = None <-> urlHostname url = None)
  /\ (forall domain, getDomainFromUrl urlHostname url = Some domain ->
        Js.toLowerCase domain = domain)
  /\ (forall url' host host',
        urlHostname url = Some host -> urlHostname url' = Some host' ->
        Js.toLowerCase host = Js.toLowerCase host' ->
        getDomainFromUrl urlHostname url = getDomainFromUrl urlHostname url').
Proof.
  repeat split.
  - unfold getDomainFromUrl. by destruct (urlHostname url).
  - unfold getDomainFromUrl. by intros ->.
  - apply getDomainFromUrl_lowercase.
  - intros url' host host' H H' E. unfold getDomainFromUrl. by rewrite H, H', E.
Qed.

(* ===================================================================== *)
(** ** The subscription in closed form                                   *)
(* ===================================================================== *)

Section SubscriptionRuns.

Context {Commit : Type}.
Variable getOpsByType : Commit -> OperationsByType.
Variable urlHostname : string -> option string.
Variable clock : nat -> string.
Variable didResolver : string -> ResolveResult.
Variable indiewebMappings : Mappings.

Local Abbreviation isStaged' := (isStaged urlHostname didResolver indiewebMappings).

Lemma imap_rows_shift {Row : Type} (rowAt : nat -> nat -> CreateOp -> Row)
    (l : list CreateOp) (n : nat) :
  (forall i create, rowAt (S n) i create = rowAt n (S i) create) ->
  imap (rowAt (S n)) l = imap (rowAt n ∘ S) l.
Proof. intros H. apply imap_ext. intros i create _. apply H. Qed.

Lemma postRowAt_shift n i create :
  postRowAt clock (S n) i create = postRowAt clock n (S i) create.
Proof. unfold postRowAt. do 2 f_equal. lia. Qed.

Lemma indiewebRowAt_shift n i create :
  indiewebRowAt clock (S n) i create = indiewebRowAt clock n (S i) create.
Proof. unfold indiewebRowAt. do 2 f_equal. lia. Qed.

Lemma mapM_toPostRow_run creates : forall w,
  mapM (toPostRow clock) creates w
  = (imap (postRowAt clock (clockReads w)) creates,
     {| post := post w; indieweb_post := indieweb_post w;
        resolverCalls := resolverCalls w;
        clockReads := clockReads w + length creates |}).
Proof.
  induction creates as [|create rest IH]; intros w; simpl.
  - unfold ret. by rewrite Nat.add_0_r, world_eta.
  - rewrite !bind_run. simpl. rewrite IH. simpl.
    rewrite (imap_rows_shift (postRowAt clock)) by apply postRowAt_shift.
    unfold ret. f_equal.
    + f_equal. unfold postRowAt. by rewrite Nat.add_0_r.
    + f_equal. lia.
Qed.

Lemma isStaged_hasLinks create : isStaged' create = true -> hasLinks create = true.
Proof.
  unfold isStaged, stagingHandle, hasLinks.
  by destruct (extractAllLinks (record create)).
Qed.

Lemma classifyCreates_run creates : forall acc w,
  classifyCreates urlHostname clock didResolver indiewebMappings creates acc w
  = (acc ++ imap (indiewebRowAt clock (clockReads w))
                 (List.filter isStaged' creates),
     {| post := post w; indieweb_post := indieweb_post w;
        resolverCalls :=
          rev (List.map create_author (List.filter hasLinks creates))
          ++ resolverCalls w;
        clockReads := clockReads w + length (List.filter isStaged' creates) |}).
Proof.
  induction creates as [|create rest IH]; intros acc w; simpl.
  - unfold ret. by rewrite app_nil_r, Nat.add_0_r, world_eta.
  - rewrite bind_run, classifyCreate_run.
    destruct (isStaged' create) eqn:Hst.
    + rewrite (isStaged_hasLinks _ Hst).
      unfold isStaged in Hst.
      destruct (stagingHandle urlHostname didResolver indiewebMappings create);
        [|done].
      simpl. rewrite IH. simpl.
      rewrite (imap_rows_shift (indiewebRowAt clock)) by apply indiewebRowAt_shift.
      rewrite <- !app_assoc. simpl. f_equal.
      * do 2 f_equal. unfold indiewebRowAt. by rewrite Nat.add_0_r.
      * f_equal. lia.
    + unfold isStaged in Hst.
      destruct (stagingHandle urlHostname didResolver indiewebMappings create);
        [done|].
      simpl. rewrite IH. simpl. unfold hasLinks.
      destruct (extractAllLinks (record create)); simpl; [done|].
      by rewrite <- app_assoc.
Qed.

Lemma handleEvent_commit_run (commit : Commit) (w : World) :
  let ops := posts (getOpsByType commit) in
  let dels := List.map delete_uri (deletes ops) in
  let alf := List.filter isAlfRelated (creates ops) in
  let staged := List.filter isStaged' (creates ops) in
  handleEvent getOpsByType urlHostname clock didResolver indiewebMappings
              (CommitEvent commit) w
  = (tt,
     {| post :=
          Db.insertOrIgnore post_uri (imap (postRowAt clock (clockReads w)) alf)
            (Db.deleteWhereUriIn post_uri dels (post w));
        indieweb_post :=
          Db.insertOrIgnore uri
            (imap (indiewebRowAt clock (clockReads w + length alf)) staged)
            (Db.deleteWhereUriIn uri dels (indieweb_post w));
        resolverCalls :=
          rev (List.map create_author (List.filter hasLinks (creates ops)))
          ++ resolverCalls w;
        clockReads := clockReads w + length alf + length staged |}).
Proof.
  intros ops dels alf staged. unfold handleEvent. fold ops. fold dels. fold alf.
  rewrite bind_run, mapM_toPostRow_run. simpl fst. simpl snd.
  rewrite bind_run, guarded_deleteFromPost.
  rewrite bind_run, guarded_insertIntoPost.
  rewrite bind_run, classifyCreates_run. fold staged. simpl fst. simpl snd.
  rewrite bind_run, guarded_deleteFromIndiewebPost.
  rewrite guarded_insertIntoIndiewebPost.
  reflexivity.
Qed.

(** X10.  The whole effect of [handleEvent] on a commit.  [post] is the
    old table without the deleted uris, followed by a row for each create
    whose text contains [alf] (in any letter case) and whose uri is not
    yet present; [indieweb_post] is the old table without the deleted
    uris, followed by a row for each staged create whose uri is not yet
    present; the clock is read once per [alf] create and then once per
    staged create, in the order of the commit; and the resolver is called
    once for each create that has a link, in the order of the commit,
    again for an author seen before. *)
Theorem handleEvent_commit_closed_form (commit : Commit) (w : World) :
  let ops := posts (getOpsByType commit) in
  let dels := List.map delete_uri (deletes ops) in
  let alf := List.filter isAlfRelated (creates ops) in
  let staged := List.filter isStaged' (creates ops) in
  handleEvent getOpsByType urlHostname clock didResolver indiewebMappings
              (CommitEvent commit) w
  = (tt,
     {| post :=
          Db.insertOrIgnore post_uri (imap (postRowAt clock (clockReads w)) alf)
            (Db.deleteWhereUriIn post_uri dels (post w));
        indieweb_post :=
          Db.insertOrIgnore uri
            (imap (indiewebRowAt clock (clockReads w + length alf)) staged)
            (Db.deleteWhereUriIn uri dels (indieweb_post w));
        resolverCalls :=
          rev (List.map create_author (List.filter hasLinks (creates ops)))
          ++ resolverCalls w;
        clockReads := clockReads w + length alf + length staged |}).
Proof. apply handleEvent_commit_run. Qed.

End SubscriptionRuns.

(** X11.  The keyword branch does not depend on the classification
    branch: the [post] table after an event is the same whatever the URL
    parser, the identity resolver and the mapping table are. *)
Theorem post_table_ignores_classification
    {Commit : Type} (getOpsByType : Commit -> OperationsByType)
    (clock : nat -> string)
    (urlHostname1 urlHostname2 : string -> option string)
    (resolver1 resolver2 : string -> ResolveResult)
    (mappings1 mappings2 : Mappings)
    (evt : RepoEvent Commit) (w : World) :
  post (snd (handleEvent getOpsByType urlHostname1 clock resolver1 mappings1 evt w))
  = post (snd (handleEvent getOpsByType urlHostname2 clock resolver2 mappings2 evt w)).
Proof.
  destruct evt as [commit|type]; [|done].
  by rewrite !handleEvent_commit_run.
Qed.

Lemma insertOrIgnore_keeps {Row : Type} (key : Row -> string) rows :
  forall (table : list Row) row,
  In row table -> In row (Db.insertOrIgnore key rows table).
Proof.
  induction rows as [|r rows IH]; intros table row H; [done|].
  rewrite insertOrIgnore_cons. apply IH.
  destruct (Db.hasKey key (key r) table); [done|].
  apply in_app_iff. by left.
Qed.

Lemma NoDup_keys_unique {Row : Type} (key : Row -> string) (table : list Row) :
  NoDup (List.map key table) ->
  forall row row', In row table -> In row' table -> key row' = key row ->
                   row' = row.
Proof.
  induction table as [|r table IH]; intros H row row' Hr Hr' E; [done|].
  simpl in H. apply NoDup_cons in H as [Hn H].
  destruct Hr as [->|Hr], Hr' as [->|Hr']; [done| | |by apply IH].
  - exfalso. apply Hn. apply list_elem_of_In. rewrite <- E. by apply in_map.
  - exfalso. apply Hn. apply list_elem_of_In. rewrite E. by apply in_map.
Qed.

Lemma stored_row_kept {Row : Type} (key : Row -> string)
    (rows : list Row) (uris : list string) (table : list Row) (row : Row) :
  NoDup (List.map key table) ->
  In row table -> ~ In (key row) uris ->
  let table' := Db.insertOrIgnore key rows (Db.deleteWhereUriIn key uris table) in
  In row table'
  /\ forall row', In row' table' -> key row' = key row -> row' = row.
Proof.
  intros Hnd Hin Hdel table'.
  assert (Hrow : In row table').
  { apply insertOrIgnore_keeps. unfold Db.deleteWhereUriIn.
    apply filter_In. split; [done|]. apply negb_true_iff.
    destruct (existsb _ uris) eqn:E; [|done].
    apply existsb_exists in E as (u & Hu & E). apply String.eqb_eq in E.
    by subst u. }
  split; [done|]. intros row' Hrow' E.
  apply (NoDup_keys_unique key table'); [|done|done|done].
  by apply insertOrIgnore_NoDup, deleteWhereUriIn_NoDup.
Qed.

(** X12.  A row that is in a table and whose uri the event does not
    delete is still there after the event, and it is the only row of its
    uri: a later creation of the same uri never replaces it, so its
    [indexedAt] (and, in [indieweb_post], its [author]) stay those of the
    first indexing. *)
Theorem indexed_rows_are_not_overwritten
    {Commit : Type} (getOpsByType : Commit -> OperationsByType)
    (urlHostname : string -> option string) (clock : nat -> string)
    (didResolver : string -> ResolveResult) (mappings : Mappings)
    (commit : Commit) (w : World) :
  NoDup (List.map post_uri (post w)) ->
  NoDup (List.map uri (indieweb_post w)) ->
  let dels := List.map delete_uri (deletes (posts (getOpsByType commit))) in
  let w' := snd (handleEvent getOpsByType urlHostname clock didResolver mappings
                             (CommitEvent commit) w) in
  (forall row, In row (post w) -> ~ In (post_uri row) dels ->
     In row (post w')
     /\ forall row', In row' (post w') -> post_uri row' = post_uri row -> row' = row)
  /\ (forall row, In row (indieweb_post w) -> ~ In (uri row) dels ->
        In row (indieweb_post w')
        /\ forall row', In row' (indieweb_post w') -> uri row' = uri row ->
                        row' = row).
Proof.
  intros Hp Hi dels w'. unfold w'. rewrite handleEvent_commit_run. simpl.
  split; intros row Hin Hdel; by apply stored_row_kept.
Qed.

Lemma In_imap {A B : Type} (f : nat -> A -> B) (l : list A) (b : B) :
  In b (imap f l) -> exists i a, In a l /\ b = f i a.
Proof.
  revert f. induction l as [|a l IH]; intros f H; [done|].
  simpl in H. destruct H as [<-|H].
  - exists 0, a. split; [by left|done].
  - apply IH in H as (i & a' & Ha & ->). exists (S i), a'. split; [by right|done].
Qed.

(** X13.  An event puts nothing into the tables but rows of its own
    creates: every row of [post] after the event is an old row whose uri
    the event does not delete, or carries the [uri] and [cid] of a create
    of the event whose text contains [alf]; every row of [indieweb_post]
    is an old row whose uri the event does not delete, or carries the
    [uri], [cid] and [author] of a create that the event stages.  So no
    old row of a deleted uri survives. *)
Theorem rows_after_event_come_from_it
    {Commit : Type} (getOpsByType : Commit -> OperationsByType)
    (urlHostname : string -> option string) (clock : nat -> string)
    (didResolver : string -> ResolveResult) (mappings : Mappings)
    (commit : Commit) (w : World) :
  let ops := posts (getOpsByType commit) in
  let dels := List.map delete_uri (deletes ops) in
  let w' := snd (handleEvent getOpsByType urlHostname clock didResolver mappings
                             (CommitEvent commit) w) in
  (forall row, In row (post w') ->
     (In row (post w) /\ ~ In (post_uri row) dels)
     \/ exists create, In create (creates ops) /\ isAlfRelated create = true
          /\ post_uri row = create_uri create /\ post_cid row = create_cid create)
  /\ (forall row, In row (indieweb_post w') ->
        (In row (indieweb_post w) /\ ~ In (uri row) dels)
        \/ exists create, In create (creates ops)
             /\ isStaged urlHostname didResolver mappings create = true
             /\ uri row = create_uri create /\ cid row = create_cid create
             /\ author row = create_author create).
Proof.
  intros ops dels w'. unfold w'. rewrite handleEvent_commit_run. simpl.
  fold ops. fold dels.
  assert (Hold : forall {Row : Type} (key : Row -> string) (table : list Row) row,
            In row (Db.deleteWhereUriIn key dels table) ->
            In row table /\ ~ In (key row) dels).
  { intros Row key table row H. split.
    - unfold Db.deleteWhereUriIn in H. by apply filter_In in H as [H _].
    - assert (In (key row) (List.map key (Db.deleteWhereUriIn key dels table)))
        as Hk by (by apply in_map).
      by apply deleteWhereUriIn_keys in Hk as [_ Hk]. }
  split; intros row H; apply insertOrIgnore_rows in H as [H|H].
  - left. by apply Hold.
  - right. apply In_imap in H as (i & create & Hc & ->).
    apply filter_In in Hc as [Hc Half]. by exists create.
  - left. by apply Hold.
  - right. apply In_imap in H as (i & create & Hc & ->).
    apply filter_In in Hc as [Hc Hst]. by exists create.
Qed.

(** X14.  A commit without post operations (likes, follows, reposts only)
    changes nothing: no row, no resolver call, no clock reading. *)
Theorem commit_without_posts_changes_nothing
    {Commit : Type} (getOpsByType : Commit -> OperationsByType)
    (urlHostname : string -> option string) (clock : nat -> string)
    (didResolver : string -> ResolveResult) (mappings : Mappings)
    (commit : Commit) (w : World) :
  creates (posts (getOpsByType commit)) = [] ->
  deletes (posts (getOpsByType commit)) = [] ->
  handleEvent getOpsByType urlHostname clock didResolver mappings
              (CommitEvent commit) w = (tt, w).
Proof.
  intros Hc Hd. rewrite handleEvent_commit_run, Hc, Hd. simpl.
  rewrite !deleteWhereUriIn_nil, !Nat.add_0_r. by rewrite world_eta.
Qed.

(* ===================================================================== *)
(** ** More on the classifier                                            *)
(* ===================================================================== *)

Lemma classifyCreate_resolved
    (urlHostname : string -> option string) (clock : nat -> string)
    (didResolver : string -> ResolveResult) (mappings : Mappings)
    (create : CreateOp) (handle : string) (w : World) :
  extractAllLinks (record create) <> [] ->
  handleOfResult (didResolver (create_author create)) = Some handle ->
  handle <> "" ->
  fst (classifyCreate urlHostname clock didResolver mappings create w)
  = if hasMatch urlHostname handle
         (IndiewebMappings.getDomainsForHandle mappings handle)
         (extractAllLinks (record create))
    then Some (indiewebRowAt clock (clockReads w) 0 create)
    else None.
Proof.
  intros Hlinks Hres Hh. rewrite classifyCreate_run. unfold stagingHandle.
  destruct (extractAllLinks (record create)) as [|l ls]; [done|].
  rewrite Hres. apply isEmpty_false in Hh. rewrite Hh.
  destruct (hasMatch _ _ _ _); [|done].
  simpl. unfold indiewebRowAt. by rewrite Nat.add_0_r.
Qed.

(** X15.  An account on the shared host is never indexed on its own: when
    the resolved handle ends with [.bsky.social] and the registry has no
    mapping for it, the post is not staged, whatever it links to. *)
Theorem shared_host_handle_needs_mapping
    (urlHostname : string -> option string) (clock : nat -> string)
    (didResolver : string -> ResolveResult) (mappings : Mappings)
    (create : CreateOp) (handle : string) (w : World) :
  handleOfResult (didResolver (create_author create)) = Some handle ->
  Js.endsWith handle ".bsky.social" = true ->
  IndiewebMappings.hasMapping mappings handle = false ->
  fst (classifyCreate urlHostname clock didResolver mappings create w) = None.
Proof.
  intros Hres Hsuffix Hmap.
  destruct (extractAllLinks (record create)) as [|l ls] eqn:Hlinks.
  { rewrite classifyCreate_run. unfold stagingHandle. by rewrite Hlinks. }
  assert (Hh : handle <> "") by (by intros ->).
  rewrite (classifyCreate_resolved _ _ _ _ _ handle); [|by rewrite Hlinks|done|done].
  assert (IndiewebMappings.getDomainsForHandle mappings handle = []) as ->.
  { unfold IndiewebMappings.hasMapping in Hmap.
    apply bool_decide_eq_false in Hmap.
    unfold IndiewebMappings.getDomainsForHandle.
    destruct (mappings !! Js.toLowerCase handle) eqn:E; [|done].
    exfalso. apply Hmap. by eexists. }
  unfold hasMatch. rewrite matchLinks_none; [done|].
  intros link _. unfold linkMatches, directMatch, csvMatch. rewrite Hsuffix. simpl.
  destruct (getDomainFromUrl urlHostname link); [|done]. apply andb_false_r.
Qed.

(** X16.  A row of the mapping file opts its handle in, in any spelling:
    when the file that was loaded has a row whose handle is the resolved
    handle in lowercase and whose domain is the lowercase host name of one
    of the post's links, the post is staged, also for a handle that ends
    with [.bsky.social]. *)
Theorem mapped_domain_is_staged
    (urlHostname : string -> option string) (clock : nat -> string)
    (didResolver : string -> ResolveResult) (content : string) (old : Mappings)
    (create : CreateOp) (handle link host : string) (w : World) :
  handleOfResult (didResolver (create_author create)) = Some handle ->
  handle <> "" ->
  In link (extractAllLinks (record create)) ->
  urlHostname link = Some host ->
  In (Js.toLowerCase handle, Js.toLowerCase host)
     (rowsOfLines 0 (keptLines content)) ->
  fst (classifyCreate urlHostname clock didResolver
         (IndiewebMappings.load (FileContent content) old) create w)
  = Some (indiewebRowAt clock (clockReads w) 0 create).
Proof.
  intros Hres Hh Hlink Hhost Hrow. simpl IndiewebMappings.load.
  rewrite (classifyCreate_resolved _ _ _ _ _ handle);
    [|by destruct (extractAllLinks (record create))|done|done].
  set (csv := IndiewebMappings.getDomainsForHandle _ handle).
  assert (Hin : In (Js.toLowerCase host) csv).
  { unfold csv, IndiewebMappings.getDomainsForHandle, IndiewebMappings.parse.
    fold (keptLines content). rewrite lookup_addLines, lookup_empty. simpl.
    unfold domainsOf. apply in_map_iff.
    exists (Js.toLowerCase handle, Js.toLowerCase host). split; [done|].
    apply filter_In. split; [exact Hrow|]. simpl. apply String.eqb_refl. }
  assert (Hne : Js.toLowerCase host <> "").
  { assert (Hok : Forall domainOk csv).
    { unfold csv, IndiewebMappings.getDomainsForHandle.
      destruct (_ !! _) as [ds|] eqn:E; simpl; [|constructor].
      by apply (parse_wf content _ _ E). }
    rewrite Forall_forall in Hok. apply list_elem_of_In in Hin.
    by destruct (Hok _ Hin). }
  assert (hasMatch urlHostname handle csv (extractAllLinks (record create)) = true)
    as ->; [|done].
  apply matchLinks_true. exists link. split; [done|].
  unfold linkMatches, getDomainFromUrl. rewrite Hhost.
  apply isEmpty_false in Hne. rewrite Hne. simpl.
  assert (csvMatch csv (Js.toLowerCase host) = true) as ->; [|apply orb_true_r].
  apply csvMatch_In. by rewrite toLowerCase_idem.
Qed.

(** X17.  The decision of the link loop depends on which links the post
    has, not on their order or repetition, and a larger domain set never
    turns an accepted post into a rejected one. *)
Theorem hasMatch_depends_on_link_set
    (urlHostname : string -> option string) (handle : string)
    (csv csv' links links' : list string) :
  ((forall link, In link links <-> In link links') ->
   hasMatch urlHostname handle csv links = hasMatch urlHostname handle csv links')
  /\ ((forall domain, In domain csv -> In domain csv') ->
      hasMatch urlHostname handle csv links = true ->
      hasMatch urlHostname handle csv' links = true)
  /\ hasMatch urlHostname handle csv (links ++ links')
     = hasMatch urlHostname handle csv links
       || hasMatch urlHostname handle csv links'.
Proof.
  assert (Hiff : forall c l,
            hasMatch urlHostname handle c l = true
            <-> exists link, In link l /\ linkMatches urlHostname handle c link = true).
  { intros c l. apply matchLinks_true. }
  assert (Heq : forall a b : bool, (a = true <-> b = true) -> a = b).
  { intros [] [] [H1 H2]; try done; [by rewrite H1|by rewrite H2]. }
  repeat split.
  - intros Hset. apply Heq. rewrite !Hiff.
    split; intros (link & Hl & Hm); exists link; (split; [by apply Hset|done]).
  - intros Hsub. rewrite !Hiff. intros (link & Hl & Hm). exists link.
    split; [done|]. unfold linkMatches in *.
    destruct (getDomainFromUrl urlHostname link) as [domain|]; [|done].
    apply andb_true_iff in Hm as [Hne Hm]. rewrite Hne. simpl.
    apply orb_true_iff in Hm as [Hm|Hm]; [by rewrite Hm|].
    apply csvMatch_In, Hsub, csvMatch_In in Hm. rewrite Hm. apply orb_true_r.
  - apply Heq. rewrite orb_true_iff, !Hiff. split.
    + intros (link & Hl & Hm). apply in_app_iff in Hl as [Hl|Hl];
        [left|right]; by exists link.
    + intros [(link & Hl & Hm)|(link & Hl & Hm)]; exists link;
        (split; [apply in_app_iff; tauto|done]).
Qed.

(* ===================================================================== *)
(** ** More on handle resolution                                         *)
(* ===================================================================== *)

(** X18.  [getHandleFromDid] calls the resolver exactly once and touches
    neither table nor the clock.  It answers [null] exactly when the
    resolver throws, answers no document, or answers a document whose
    alias list is missing, empty, or begins with the empty string;
    otherwise it answers the first alias with its first [at://] removed,
    whatever the later aliases are. *)
Theorem getHandleFromDid_outcomes
    (didResolver : string -> ResolveResult) (did : string) (w : World) :
  let run := getHandleFromDid didResolver did w in
  resolverCalls (snd run) = did :: resolverCalls w
  /\ post (snd run) = post w
  /\ indieweb_post (snd run) = indieweb_post w
  /\ clockReads (snd run) = clockReads w
  /\ (fst run = None
      <-> didResolver did = ResolveThrows
          \/ didResolver did = ResolveNull
          \/ exists didDoc,
               didResolver did = ResolveDoc didDoc
               /\ (alsoKnownAs didDoc = None
                   \/ alsoKnownAs didDoc = Some []
                   \/ exists others, alsoKnownAs didDoc = Some ("" :: others)))
  /\ (forall first others,
        didResolver did = ResolveDoc {| alsoKnownAs := Some (first :: others) |} ->
        first <> "" ->
        fst run = Some (Js.replace first "at://" "")).
Proof.
  unfold getHandleFromDid. rewrite bind_run. simpl.
  repeat split.
  - intros H. destruct (didResolver did) as [| |[aliases]]; [by left|right; by left|].
    right. right. eexists. split; [done|]. simpl in *.
    destruct aliases as [[|first others]|]; [right; by left| |by left].
    destruct first; [|done]. right. right. by eexists.
  - intros [->|[->|(didDoc & -> & H)]]; [done|done|].
    destruct H as [H|[H|(others & H)]]; simpl; by rewrite H.
  - intros first others -> Hne. simpl.
    apply isEmpty_false in Hne. by rewrite Hne.
Qed.

(* ===================================================================== *)
(** ** Worked examples for the further properties                        *)
(* ===================================================================== *)

Lemma comment_and_commaless_lines_store_nothing_witness :
  IndiewebMappings.addLines 0 ["# handles of friends"; "no separator here"]
    (IndiewebMappings.parse "a.com,b.com")
  = IndiewebMappings.parse "a.com,b.com".
Proof.
  apply (comment_and_commaless_lines_store_nothing
           ["# handles of friends"; "no separator here"] 0).
  constructor; [by left|]. constructor; [by right|]. constructor.
Defined.

Lemma first_line_with_handle_is_dropped_witness :
  Js.includes (Js.toLowerCase "MyHandle.dev") "handle" = true
  /\ IndiewebMappings.addLines 0 [("MyHandle.dev" +:+ ",blog.dev"); "a.com,b.com"] ∅
     = IndiewebMappings.addLines 1 ["a.com,b.com"] ∅.
Proof.
  split; [reflexivity|].
  apply (first_line_with_handle_is_dropped "MyHandle.dev" ",blog.dev"
           ["a.com,b.com"] ∅).
  reflexivity.
Defined.

Lemma trailing_white_space_is_ignored_witness :
  Js.isWhiteSpace Example.CR = true
  /\ IndiewebMappings.addLine 1 ("a.com,b.com" +:+ String Example.CR "") ∅
     = IndiewebMappings.addLine 1 "a.com,b.com" ∅.
Proof.
  split; [reflexivity|].
  apply (trailing_white_space_is_ignored 1 "a.com,b.com" Example.CR ∅).
  reflexivity.
Defined.

Lemma start_then_stop_witness :
  timersFresh Example.twoTimers
  /\ Reload.running
       (snd (Reload.stop
               (fst (Reload.start FileMissing
                       {| Reload.table := ∅; Reload.reloadTimer := None |}
                       Example.twoTimers))
               (snd (Reload.start FileMissing
                       {| Reload.table := ∅; Reload.reloadTimer := None |}
                       Example.twoTimers))))
     = Reload.running Example.twoTimers.
Proof.
  assert (Hfresh : timersFresh Example.twoTimers).
  { intros t [<-|[<-|[]]]; simpl; lia. }
  split; [exact Hfresh|].
  apply (start_then_stop FileMissing
           {| Reload.table := ∅; Reload.reloadTimer := None |}
           Example.twoTimers Hfresh).
Defined.

Lemma indexed_rows_are_not_overwritten_witness :
  NoDup (List.map post_uri (post Example.indexedWorld))
  /\ NoDup (List.map uri (indieweb_post Example.indexedWorld))
  /\ In Example.dominikRow
        (indieweb_post
           (snd (handleEvent Example.getOpsByType Example.urlHostname Example.clock
                             Example.dominikResolver ∅
                             (CommitEvent Example.createOnly)
                             Example.indexedWorld))).
Proof.
  assert (Hp : NoDup (List.map post_uri (post Example.indexedWorld)))
    by constructor.
  assert (Hi : NoDup (List.map uri (indieweb_post Example.indexedWorld))).
  { apply NoDup_singleton. }
  split; [exact Hp|]. split; [exact Hi|].
  apply (proj2 (indexed_rows_are_not_overwritten Example.getOpsByType
                  Example.urlHostname Example.clock Example.dominikResolver ∅
                  Example.createOnly Example.indexedWorld Hp Hi)
               Example.dominikRow).
  - by left.
  - by intros [].
Defined.

Lemma commit_without_posts_changes_nothing_witness :
  handleEvent Example.getOpsByType Example.urlHostname Example.clock
              Example.dominikResolver ∅ (CommitEvent Example.likesOnly)
              Example.indexedWorld
  = (tt, Example.indexedWorld).
Proof.
  apply (commit_without_posts_changes_nothing Example.getOpsByType
           Example.urlHostname Example.clock Example.dominikResolver ∅
           Example.likesOnly Example.indexedWorld); reflexivity.
Defined.

Lemma shared_host_handle_needs_mapping_witness :
  handleOfResult (Example.aliceSharedResolver (create_author Example.aliceCreate))
  = Some "alice.bsky.social"
  /\ Js.endsWith "alice.bsky.social" ".bsky.social" = true
  /\ IndiewebMappings.hasMapping ∅ "alice.bsky.social" = false
  /\ fst (classifyCreate Example.urlHostname Example.clock
            Example.aliceSharedResolver ∅ Example.aliceCreate Example.emptyWorld)
     = None.
Proof.
  split; [reflexivity|]. split; [reflexivity|]. split; [reflexivity|].
  apply (shared_host_handle_needs_mapping Example.urlHostname Example.clock
           Example.aliceSharedResolver ∅ Example.aliceCreate "alice.bsky.social"
           Example.emptyWorld); reflexivity.
Defined.

Lemma mapped_domain_is_staged_witness :
  In (Js.toLowerCase "alice.bsky.social", Js.toLowerCase "Blog.Example.com")
     (rowsOfLines 0 (keptLines Example.aliceMapping))
  /\ Example.urlHostname "https://Blog.Example.com/p/1" = Some "Blog.Example.com"
  /\ fst (classifyCreate Example.urlHostname Example.clock
            Example.aliceSharedResolver
            (IndiewebMappings.load (FileContent Example.aliceMapping) ∅)
            Example.aliceBlogCreate Example.emptyWorld)
     = Some (indiewebRowAt Example.clock 0 0 Example.aliceBlogCreate).
Proof.
  assert (Hrow : In (Js.toLowerCase "alice.bsky.social",
                     Js.toLowerCase "Blog.Example.com")
                    (rowsOfLines 0 (keptLines Example.aliceMapping))).
  { vm_compute. by left. }
  split; [exact Hrow|]. split; [reflexivity|].
  apply (mapped_domain_is_staged Example.urlHostname Example.clock
           Example.aliceSharedResolver Example.aliceMapping ∅
           Example.aliceBlogCreate "alice.bsky.social"
           "https://Blog.Example.com/p/1" "Blog.Example.com" Example.emptyWorld);
    [reflexivity|done|by left|reflexivity|exact Hrow].
Defined.

Lemma hasMatch_depends_on_link_set_witness :
  hasMatch Example.urlHostname "dominik.social" []
           ["https://example.com/a"; "https://dominik.social/post"]
  = hasMatch Example.urlHostname "dominik.social" []
             ["https://dominik.social/post"; "https://example.com/a";
              "https://dominik.social/post"].
Proof.
  apply (proj1 (hasMatch_depends_on_link_set Example.urlHostname "dominik.social"
                  [] []
                  ["https://example.com/a"; "https://dominik.social/post"]
                  ["https://dominik.social/post"; "https://example.com/a";
                   "https://dominik.social/post"])).
  intros link. simpl. tauto.
Defined.

Lemma getDomainFromUrl_is_lowercase_hostname_witness :
  Example.urlHostname "https://Blog.Example.com/p/1" = Some "Blog.Example.com"
  /\ Example.urlHostname "https://blog.example.COM/other" = Some "blog.example.COM"
  /\ getDomainFromUrl Example.urlHostname "https://Blog.Example.com/p/1"
     = getDomainFromUrl Example.urlHostname "https://blog.example.COM/other".
Proof.
  split; [reflexivity|]. split; [reflexivity|].
  apply (proj2 (proj2 (getDomainFromUrl_is_lowercase_hostname Example.urlHostname
                         "https://Blog.Example.com/p/1"))
               "https://blog.example.COM/other" "Blog.Example.com"
               "blog.example.COM"); reflexivity.
Defined.

(* ===================================================================== *)
(** ** The classifier against the parser and the mapping file            *)
(* ===================================================================== *)

Lemma specAcceptsHost_derived (urlHostname : string -> option string)
    (handle : string) (domainSet : list string) (link : string) :
  specAcceptsHost urlHostname handle domainSet link
  <-> specAcceptsLink urlHostname handle domainSet link.
Proof.
  unfold specAcceptsHost, specAcceptsLink, getDomainFromUrl. split.
  - intros (hostname & Hhost & H). exists (Js.toLowerCase hostname).
    by rewrite Hhost.
  - intros (domain & Hd & H). destruct (urlHostname link) as [hostname|]; [|done].
    injection Hd as <-. by exists hostname.
Qed.

Lemma getDomainsForHandle_loadAll (files : list CsvFile) (handle : string) :
  IndiewebMappings.getDomainsForHandle (IndiewebMappings.loadAll files) handle
  = registryDomains files handle.
Proof.
  unfold registryDomains. rewrite loadAll_lastCompleted.
  unfold IndiewebMappings.getDomainsForHandle.
  destruct (lastCompleted files) as [[| |content]|]; try by rewrite lookup_empty.
  unfold IndiewebMappings.parse. fold (keptLines content).
  by rewrite lookup_addLines, lookup_empty.
Qed.

(** C4.  For a post with at least one link whose author resolves to a
    (non-empty) handle, and a registry that went through any run of loads:
    the loop body stages the post exactly when some link parses and its
    host name in lowercase (a) equals the handle up to letter case while
    the handle does not end with [.bsky.social], or (b) is one of the
    domains that the rows of the mapping file last read give for the
    handle, whatever its suffix.  The link loop stops at the first such
    link (the links after it are not handed to the parser); when no link
    is such, every link is examined and the post is rejected; a link that
    does not parse satisfies no rule and is passed over.  The domain the
    code derives from a link is the parser's host name in lowercase, and
    the list the registry returns is the one read off the file. *)
Theorem classifier_accepts_iff
    (urlHostname : string -> option string) (clock : nat -> string)
    (didResolver : string -> ResolveResult) (files : list CsvFile)
    (create : CreateOp) (handle : string) (w : World) :
  extractAllLinks (record create) <> [] ->
  handleOfResult (didResolver (create_author create)) = Some handle ->
  handle <> "" ->
  let table := IndiewebMappings.loadAll files in
  let links := extractAllLinks (record create) in
  let domainSet := registryDomains files handle in
  let accepts := specAcceptsHost urlHostname handle domainSet in
  (is_Some (fst (classifyCreate urlHostname clock didResolver table create w))
   <-> exists link, In link links /\ accepts link)
  /\ (forall before link rest,
        links = before ++ link :: rest ->
        (forall l, In l before -> ~ accepts l) -> accepts link ->
        matchLinks urlHostname handle
                   (IndiewebMappings.getDomainsForHandle table handle) links
        = (true, before ++ [link]))
  /\ ((forall l, In l links -> ~ accepts l) ->
      matchLinks urlHostname handle
                 (IndiewebMappings.getDomainsForHandle table handle) links
      = (false, links)
      /\ fst (classifyCreate urlHostname clock didResolver table create w) = None)
  /\ (forall l, urlHostname l = None ->
        getDomainFromUrl urlHostname l = None /\ ~ accepts l)
  /\ (forall l hostname, urlHostname l = Some hostname ->
        getDomainFromUrl urlHostname l = Some (Js.toLowerCase hostname))
  /\ IndiewebMappings.getDomainsForHandle table handle = domainSet.
Proof.
  intros Hlinks Hres Hh table links domainSet accepts.
  assert (Hset : IndiewebMappings.getDomainsForHandle table handle = domainSet)
    by apply getDomainsForHandle_loadAll.
  assert (Hacc : forall l, accepts l
                           <-> specAcceptsLink urlHostname handle domainSet l).
  { intros l. apply specAcceptsHost_derived. }
  pose proof (classifyCreate_accepts_derived urlHostname clock didResolver files
                create handle w Hlinks Hres Hh) as H.
  cbv zeta in H. fold table in H. fold links in H. rewrite Hset in H.
  destruct H as (Hiff & Hfirst & Hnone & _).
  rewrite Hset. repeat split.
  - intros Hsome. apply Hiff in Hsome as (l & Hl & Hsome).
    exists l. split; [done|]. by apply Hacc.
  - intros (l & Hl & Hl'). apply Hiff. exists l. split; [done|]. by apply Hacc.
  - intros before link rest Heq Hbefore Hlink.
    apply (Hfirst before link rest); [done| |by apply Hacc].
    intros l Hl Hl'. apply (Hbefore l Hl). by apply Hacc.
  - apply Hnone. intros l Hl Hl'. apply (H l Hl). by apply Hacc.
  - apply Hnone. intros l Hl Hl'. apply (H l Hl). by apply Hacc.
  - unfold getDomainFromUrl. by rewrite H.
  - intros (hostname & Hhost & _). by rewrite H in Hhost.
  - intros l hostname Hhost. unfold getDomainFromUrl. by rewrite Hhost.
Qed.

Lemma classifier_accepts_iff_witness :
  extractAllLinks (record Example.aliceBlogCreate) <> []
  /\ handleOfResult
       (Example.aliceSharedResolver (create_author Example.aliceBlogCreate))
     = Some "alice.bsky.social"
  /\ "alice.bsky.social" <> ""
  /\ registryDomains [FileContent Example.aliceMapping] "alice.bsky.social"
     = ["blog.example.com"]
  /\ specAcceptsHost Example.urlHostname "alice.bsky.social" ["blog.example.com"]
       "https://Blog.Example.com/p/1"
  /\ is_Some (fst (classifyCreate Example.urlHostname Example.clock
                     Example.aliceSharedResolver
                     (IndiewebMappings.loadAll [FileContent Example.aliceMapping])
                     Example.aliceBlogCreate Example.emptyWorld)).
Proof.
  assert (Hset : registryDomains [FileContent Example.aliceMapping]
                                 "alice.bsky.social" = ["blog.example.com"])
    by (by vm_compute).
  assert (Hacc : specAcceptsHost Example.urlHostname "alice.bsky.social"
                   ["blog.example.com"] "https://Blog.Example.com/p/1").
  { exists "Blog.Example.com". split; [reflexivity|]. right. by left. }
  split; [done|]. split; [reflexivity|]. split; [done|].
  split; [exact Hset|]. split; [exact Hacc|].
  apply (proj1 (classifier_accepts_iff Example.urlHostname Example.clock
                  Example.aliceSharedResolver [FileContent Example.aliceMapping]
                  Example.aliceBlogCreate "alice.bsky.social" Example.emptyWorld
                  ltac:(done) ltac:(reflexivity) ltac:(done))).
  exists "https://Blog.Example.com/p/1". split; [by left|].
  rewrite Hset. exact Hacc.
Defined.
